(** * url-shortener: short codes, the hot-URL cache and the URL service

    A shallow embedding of
      - server/utils/shortCode.js   (module [ShortCode]),
      - server/utils/cache.js       (module [UrlCache]),
      - server/utils/AppError.js    (module [AppError]),
      - server/models/Url.js        (module [Url]),
      - server/services/cleanupService.js, server/services/urlService.js
                                    (section [Service]),
      - server/controllers/urlController.js, [redirectUrl].

    Instants are the millisecond counts of [Date.now()], as [Z].  A JS [Map]
    is an association list in insertion order with one binding per key.
    The durable collection is the list of its documents. *)

From Stdlib Require Import List String Ascii ZArith Lia Bool Arith.
From Stdlib.Strings Require Import Byte.
Import ListNotations.
Local Open Scope string_scope.
Local Open Scope Z_scope.

Set Implicit Arguments.

(** ** JavaScript values reaching the service from a request body *)

Inductive Value : Type :=
| VUndefined
| VNull
| VBool (b : bool)
| VNum (n : Z)
| VStr (s : string).

(** [!v] is false exactly on the truthy values. *)
Definition truthy (v : Value) : bool :=
  match v with
  | VUndefined | VNull => false
  | VBool b => b
  | VNum n => negb (n =? 0)
  | VStr s => negb (s =? "")%string
  end.

(** A string-or-null parameter used as a condition ([if (customSlug)],
    [guestId && ...], [if (oldestKey)]): the empty string is falsy. *)
Definition truthy_str (o : option string) : bool :=
  match o with
  | Some s => negb (s =? "")%string
  | None => false
  end.

(** [x || null] on such a parameter. *)
Definition or_null (o : option string) : option string :=
  if truthy_str o then o else None.

(** Mongo ObjectIds; as objects they are always truthy. *)
Inductive ObjectId : Type := Oid (n : nat).

Definition oid_eqb (a b : ObjectId) : bool :=
  match a, b with Oid x, Oid y => Nat.eqb x y end.

Definition opt_oid_eqb (a b : option ObjectId) : bool :=
  match a, b with
  | Some x, Some y => oid_eqb x y
  | None, None => true
  | _, _ => false
  end.

Definition opt_str_eqb (a b : option string) : bool :=
  match a, b with
  | Some x, Some y => (x =? y)%string
  | None, None => true
  | _, _ => false
  end.

(** ** config/index.js *)

Module config.
Definition shortCode_length : nat := 6.
Definition shortCode_maxRetries : nat := 5.
Definition cache_maxSize : nat := 1000.
Definition cache_ttl : Z := 60 * 60 * 1000.
End config.

(** ** utils/shortCode.js *)

Module ShortCode.

Definition ALPHABET : string :=
  "abcdefghijklmnopqrstuvwxyzABCDEFGHIJKLMNOPQRSTUVWXYZ0123456789".

(** The source of [crypto.randomBytes]: an unbounded tape of bytes and the
    number of bytes drawn so far. *)
Record Rng : Type := mkRng { entropy : nat -> byte; drawn : nat }.

Definition randomBytes (n : nat) (r : Rng) : list byte * Rng :=
  (map (fun i => entropy r (drawn r + i)%nat) (seq 0 n),
   mkRng (entropy r) (drawn r + n)).

(** [ALPHABET[b % ALPHABET.length]]; indexing a string out of range gives
    [undefined], which [+=] would append as text. *)
Definition alphabet_at (b : byte) : string :=
  match String.get (N.to_nat (Byte.to_N b mod N.of_nat (String.length ALPHABET))) ALPHABET with
  | Some c => String c EmptyString
  | None => "undefined"
  end.

(** The [for] loop of [generateShortCode] over the drawn bytes. *)
Definition encode (bytes : list byte) : string :=
  fold_left (fun code b => code ++ alphabet_at b)%string bytes "".

Definition generateShortCode (length : nat) (r : Rng) : string * Rng :=
  let (bytes, r') := randomBytes length r in
  (encode bytes, r').

(** One [console.warn] line of the retry loop. *)
Record Warning : Type := mkWarning { w_code : string; w_retry : nat; w_maxRetries : nat }.

(** The loop [for (let i = 0; i < maxRetries; i++)], with [fuel] iterations
    left; falls through to the longer code when they are used up. *)
Fixpoint retry (length maxRetries : nat) (checkExists : string -> bool)
         (fuel i : nat) (log : list Warning) (r : Rng)
  : string * list Warning * Rng :=
  match fuel with
  | O =>
      let (code, r') := generateShortCode (length + 2) r in
      (code, log, r')
  | S fuel' =>
      let (code, r') := generateShortCode length r in
      if negb (checkExists code) then (code, log, r')
      else retry length maxRetries checkExists fuel' (S i)
                 (log ++ [mkWarning code (i + 1) maxRetries]) r'
  end.

Definition generateUniqueShortCodeWith (length maxRetries : nat)
           (checkExists : string -> bool) (r : Rng)
  : string * list Warning * Rng :=
  retry length maxRetries checkExists maxRetries 0 [] r.

Definition generateUniqueShortCode (checkExists : string -> bool) (r : Rng)
  : string * list Warning * Rng :=
  generateUniqueShortCodeWith config.shortCode_length config.shortCode_maxRetries
                              checkExists r.

(** The random source after [n] more bytes were drawn. *)
Definition skip (n : nat) (r : Rng) : Rng := mkRng (entropy r) (drawn r + n).

(** The code the [i]-th attempt of the loop draws, from [r] on. *)
Definition attempt (length : nat) (r : Rng) (i : nat) : string :=
  fst (generateShortCode length (skip (i * length) r)).

(** The warnings of [n] collisions in a row. *)
Definition collisions (length maxRetries : nat) (r : Rng) (n : nat) : list Warning :=
  map (fun i => mkWarning (attempt length r i) (i + 1) maxRetries) (seq 0 n).

Definition slug_char (c : ascii) : bool :=
  let n := nat_of_ascii c in
  ((97 <=? n) && (n <=? 122) || (65 <=? n) && (n <=? 90) || (48 <=? n) && (n <=? 57)
   || (n =? 95) || (n =? 45))%nat.

(** [/^[a-zA-Z0-9_-]+$/.test(slug)] *)
Definition slugRegex_test (slug : string) : bool :=
  match list_ascii_of_string slug with
  | [] => false
  | cs => forallb slug_char cs
  end.

Definition isValidSlug (slug : string) : bool :=
  slugRegex_test slug && (3 <=? String.length slug)%nat && (String.length slug <=? 50)%nat.

(** [Buffer.toString('hex')]: two lowercase digits for each byte. *)
Definition hex_digit (n : N) : ascii :=
  match String.get (N.to_nat n) "0123456789abcdef" with
  | Some c => c
  | None => "0"%char
  end.

Definition hex_of_byte (b : byte) : string :=
  String (hex_digit (Byte.to_N b / 16)) (String (hex_digit (Byte.to_N b mod 16)) "").

Definition toString_hex (bytes : list byte) : string :=
  String.concat "" (map hex_of_byte bytes).

Definition generateGuestId (r : Rng) : string * Rng :=
  let (bytes, r') := randomBytes 16 r in
  ("guest_" ++ toString_hex bytes, r').

(** The value of a hexadecimal digit and the bytes a hexadecimal text
    stands for; used to read the bytes back out of a guest id. *)
Definition hex_value (c : ascii) : N :=
  let n := N_of_ascii c in
  if (48 <=? n)%N && (n <=? 57)%N then n - 48
  else if (97 <=? n)%N && (n <=? 102)%N then n - 87
  else 0.

Fixpoint parse_hex (s : string) : list byte :=
  match s with
  | String hi (String lo rest) =>
      match Byte.of_N (16 * hex_value hi + hex_value lo) with
      | Some b => b :: parse_hex rest
      | None => parse_hex rest
      end
  | _ => []
  end.

(** All 256 bytes, in order. *)
Definition all_bytes : list byte :=
  flat_map (fun n => match Byte.of_nat n with Some b => [b] | None => [] end) (seq 0 256).

(** Whether a character is one of [ALPHABET]. *)
Definition in_alphabet (c : ascii) : bool :=
  existsb (Ascii.eqb c) (list_ascii_of_string ALPHABET).

(** The index into [ALPHABET] a byte is mapped to. *)
Definition alphabet_index (b : byte) : N :=
  Byte.to_N b mod N.of_nat (String.length ALPHABET).

End ShortCode.

(** ** A JS [Map] with string keys

    Iteration follows insertion order; [set] on a key already present
    replaces the value where it stands; [delete] removes the binding. *)

Module JsMap.
Section Ops.
Variable V : Type.

Definition t : Type := list (string * V).

Fixpoint get (k : string) (m : t) : option V :=
  match m with
  | [] => None
  | (k', v) :: m' => if (k' =? k)%string then Some v else get k m'
  end.

Fixpoint set (k : string) (v : V) (m : t) : t :=
  match m with
  | [] => [(k, v)]
  | (k', v') :: m' =>
      if (k' =? k)%string then (k', v) :: m' else (k', v') :: set k v m'
  end.

Fixpoint delete (k : string) (m : t) : t :=
  match m with
  | [] => []
  | (k', v') :: m' =>
      if (k' =? k)%string then delete k m' else (k', v') :: delete k m'
  end.

Definition size (m : t) : nat := List.length m.

Definition keys (m : t) : list string := map fst m.
End Ops.
End JsMap.

(** ** utils/cache.js *)

Module UrlCache.
Section Cache.
(** The cached payload ([urlData]); the cache never looks inside it. *)
Variable Data : Type.

Record Entry : Type := mkEntry {
  data : Data;
  expiresAt : Z;
  hits : Z;
  lastAccess : Z
}.

Record t : Type := mkCache {
  cache : JsMap.t Entry;
  maxSize : nat;
  ttl : Z
}.

Definition with_cache (c : t) (m : JsMap.t Entry) : t :=
  mkCache m (maxSize c) (ttl c).

(** [new UrlCache()] under a configuration. *)
Definition create (maxSize : nat) (ttl : Z) : t := mkCache [] maxSize ttl.

(** [get(shortCode)] at instant [now]. *)
Definition get (now : Z) (shortCode : string) (c : t) : option Data * t :=
  match JsMap.get shortCode (cache c) with
  | None => (None, c)
  | Some entry =>
      if now >? expiresAt entry then
        (None, with_cache c (JsMap.delete shortCode (cache c)))
      else
        let entry' := mkEntry (data entry) (expiresAt entry) (hits entry + 1) now in
        (Some (data entry), with_cache c (JsMap.set shortCode entry' (cache c)))
  end.

(** The scan of [evictLeastUsed]: the running [(oldestKey, oldest)]. *)
Definition older (acc : option (string * Entry)) (ke : string * Entry)
  : option (string * Entry) :=
  match acc with
  | None => Some ke
  | Some (_, oldest) =>
      if lastAccess (snd ke) <? lastAccess oldest then Some ke else acc
  end.

Definition scan (m : JsMap.t Entry) : option (string * Entry) :=
  fold_left older m None.

Definition evictLeastUsed (c : t) : t :=
  match scan (cache c) with
  | Some (oldestKey, _) =>
      if truthy_str (Some oldestKey)
      then with_cache c (JsMap.delete oldestKey (cache c))
      else c
  | None => c
  end.

(** [set(shortCode, urlData)] at instant [now]. *)
Definition set (now : Z) (shortCode : string) (urlData : Data) (c : t) : t :=
  let c1 := if (maxSize c <=? JsMap.size (cache c))%nat then evictLeastUsed c else c in
  with_cache c1
    (JsMap.set shortCode (mkEntry urlData (now + ttl c1) 1 now) (cache c1)).

Definition invalidate (shortCode : string) (c : t) : t :=
  with_cache c (JsMap.delete shortCode (cache c)).

(** [cleanup()] at instant [now]: deleting during the iteration of a
    [Map] only skips the deleted binding. *)
Definition cleanup (now : Z) (c : t) : t :=
  with_cache c (filter (fun ke => negb (now >? expiresAt (snd ke))) (cache c)).

Definition clear (c : t) : t := with_cache c [].

(** A run of [set] calls, each [(now, shortCode, urlData)]. *)
Definition setAll (calls : list (Z * string * Data)) (c : t) : t :=
  fold_left (fun c call => set (fst (fst call)) (snd (fst call)) (snd call) c) calls c.

Definition codes (calls : list (Z * string * Data)) : list string :=
  map (fun call => snd (fst call)) calls.

(** The keys a reachable cache holds: one binding per key. *)
Definition wf (c : t) : Prop := NoDup (JsMap.keys (cache c)).

(** Entries with the hit counters rewritten by [h]. *)
Definition rehit (h : string -> Entry -> Z) (m : JsMap.t Entry) : JsMap.t Entry :=
  map (fun ke => (fst ke, mkEntry (data (snd ke)) (expiresAt (snd ke))
                                   (h (fst ke) (snd ke)) (lastAccess (snd ke)))) m.
(** [getStats()] *)
Record Stats : Type := mkStats { s_size : nat; s_maxSize : nat; s_ttl : Z }.

Definition getStats (c : t) : Stats := mkStats (JsMap.size (cache c)) (maxSize c) (ttl c).

(** [destroy()]: the timer is stopped and the map cleared. *)
Definition destroy (c : t) : t := clear c.

(** The calls a client of the cache can make, and a run of them. *)
Inductive Op : Type :=
| OpGet (now : Z) (shortCode : string)
| OpSet (now : Z) (shortCode : string) (urlData : Data)
| OpInvalidate (shortCode : string)
| OpCleanup (now : Z)
| OpClear.

Definition step (c : t) (op : Op) : t :=
  match op with
  | OpGet now shortCode => snd (get now shortCode c)
  | OpSet now shortCode urlData => set now shortCode urlData c
  | OpInvalidate shortCode => invalidate shortCode c
  | OpCleanup now => cleanup now c
  | OpClear => clear c
  end.

Definition run (ops : list Op) (c : t) : t := fold_left step ops c.

(** What every call keeps: one binding per key, no empty key, and no more
    bindings than the capacity. *)
Definition within (c : t) : Prop :=
  NoDup (JsMap.keys (cache c)) /\
  (forall k, In k (JsMap.keys (cache c)) -> k <> "") /\
  (JsMap.size (cache c) <= maxSize c)%nat.

(** The codes a run passes to [set]. *)
Definition set_codes (ops : list Op) : list string :=
  flat_map (fun op => match op with OpSet _ k _ => [k] | _ => [] end) ops.

End Cache.
End UrlCache.

(** ** utils/AppError.js *)

Module AppError.
Record t : Type := mkAppError {
  message : string;
  statusCode : Z;
  code : string;
  isOperational : bool
}.

(** [new AppError(message, statusCode, code)] *)
Definition new (message : string) (statusCode : Z) (code : string) : t :=
  mkAppError message statusCode code true.

Definition badRequest (message : string) : t := new message 400 "BAD_REQUEST".
Definition unauthorized (message : string) : t := new message 401 "UNAUTHORIZED".
Definition forbidden (message : string) : t := new message 403 "FORBIDDEN".
Definition notFound (message : string) : t := new message 404 "NOT_FOUND".
Definition conflict (message : string) : t := new message 409 "CONFLICT".
Definition tooManyRequests (message : string) : t := new message 429 "TOO_MANY_REQUESTS".
Definition internal (message : string) : t := new message 500 "INTERNAL_ERROR".

(** The kind of an error is what the error handler reads to pick the
    response: its status and its code, not its message. *)
Definition kind (e : t) : Z * string := (statusCode e, code e).
End AppError.

(** What a call can throw: an [AppError], a [TypeError] of the runtime, or
    an error of the document layer on [save]. *)
Inductive Thrown : Type :=
| ThrowApp (e : AppError.t)
| TypeError (msg : string)
| ValidationError
| DuplicateKey.

(** ** Numbers

    A JS Number holding an integer is modelled by that integer.
    [Number_round x] is the double nearest to the integer [x], a tie going
    to the even significand: every integer up to [2 ^ 53] in magnitude is
    a double; above, only the multiples of the power of two that leaves 53
    significant bits are.  The overflow to [Infinity], out of reach of a
    double plus 1, is left out. *)
Definition Number_round (x : Z) : Z :=
  let a := Z.abs x in
  if a <=? 2 ^ 53 then x
  else
    let e := Z.log2 a - 52 in
    let q := a / 2 ^ e in
    let r := a mod 2 ^ e in
    let q' := if (2 ^ (e - 1) <? r) || ((r =? 2 ^ (e - 1)) && Z.odd q) then q + 1 else q in
    Z.sgn x * (q' * 2 ^ e).

(** [a + b] on Numbers holding integers. *)
Definition Number_add (a b : Z) : Z := Number_round (a + b).

(** ** models/Url.js *)

Module Url.
Record Click : Type := mkClick {
  timestamp : Z;
  ip : option string;
  userAgent : option string;
  referer : option string
}.

(** The [clickData] object as the controller builds it; a property the
    object lacks reads as [undefined] ([None]). *)
Record ClickData : Type := mkClickData {
  cd_ip : option string;
  cd_userAgent : option string;
  cd_referer : option string;
  cd_referrer : option string
}.

(** The paths of [urlSchema] and the [createdAt] stamp of its
    [timestamps] option; [isActive] can be unset.  The [updatedAt] stamp,
    which nothing in the service reads, is left out. *)
Record t : Type := mkUrl {
  _id : ObjectId;
  originalUrl : string;
  shortCode : string;
  customSlug : option string;
  userId : option ObjectId;
  guestId : option string;
  clicks : Z;
  clickHistory : list Click;
  isActive : option bool;
  expiresAt : option Z;
  qrCode : option string;
  createdAt : Z
}.

Definition set_originalUrl (v : string) (u : t) : t :=
  mkUrl (_id u) v (shortCode u) (customSlug u) (userId u) (guestId u) (clicks u)
        (clickHistory u) (isActive u) (expiresAt u) (qrCode u) (createdAt u).

Definition set_isActive (v : option bool) (u : t) : t :=
  mkUrl (_id u) (originalUrl u) (shortCode u) (customSlug u) (userId u) (guestId u)
        (clicks u) (clickHistory u) v (expiresAt u) (qrCode u) (createdAt u).

Definition set_expiresAt (v : option Z) (u : t) : t :=
  mkUrl (_id u) (originalUrl u) (shortCode u) (customSlug u) (userId u) (guestId u)
        (clicks u) (clickHistory u) (isActive u) v (qrCode u) (createdAt u).

Definition set_createdAt (v : Z) (u : t) : t :=
  mkUrl (_id u) (originalUrl u) (shortCode u) (customSlug u) (userId u) (guestId u)
        (clicks u) (clickHistory u) (isActive u) (expiresAt u) (qrCode u) v.

Definition set_clicks (n : Z) (h : list Click) (u : t) : t :=
  mkUrl (_id u) (originalUrl u) (shortCode u) (customSlug u) (userId u) (guestId u)
        n h (isActive u) (expiresAt u) (qrCode u) (createdAt u).

(** [urlSchema.methods.recordClick], up to its [this.save()], run at
    instant [now]; [clicks] is a Number. *)
Definition recordClick (now : Z) (clickData : ClickData) (this : t) : t :=
  let clicks' := Number_add (clicks this) 1 in
  let history :=
    if (100 <=? List.length (clickHistory this))%nat
    then tl (clickHistory this)
    else clickHistory this in
  set_clicks clicks'
    (history ++ [mkClick now (cd_ip clickData) (cd_userAgent clickData) (cd_referer clickData)])
    this.

(** The [required] validators of the schema; a required string may not be
    empty. *)
Definition validate (u : t) : bool :=
  negb (originalUrl u =? "")%string && negb (shortCode u =? "")%string.

(** Every field that [updateUrl] has no assignment for. *)
Definition same_immutable (a b : t) : Prop :=
  _id a = _id b /\ shortCode a = shortCode b /\ customSlug a = customSlug b /\
  userId a = userId b /\ guestId a = guestId b /\ clicks a = clicks b /\
  clickHistory a = clickHistory b /\ qrCode a = qrCode b /\ createdAt a = createdAt b.
End Url.

(** ** What the platform supplies: the URL parser, [Date], the casters of
    the schema paths and the configured server address *)

Inductive Cast (A : Type) : Type :=
| CastOk (v : option A)   (* the path now holds [v]; [None] is an unset path *)
| CastError.
Arguments CastError {A}.

Class Platform : Type := {
  (** [new URL(s).protocol]; [None] when the constructor throws *)
  URL_protocol : string -> option string;
  (** [new Date(v)] as an instant; [None] for an invalid date *)
  Date_new : Value -> option Z;
  (** [d.setDate(d.getDate() + n)]: [n] calendar days after [d] in the
      server's time zone *)
  Date_plusDays : Z -> Z -> Z;
  (** assigning a value to the path of a document *)
  cast_originalUrl : Value -> Cast string;
  cast_isActive : Value -> Cast bool;
  cast_expiresAt : Value -> Cast Z;
  (** [config.serverUrl] *)
  serverUrl : string
}.


(** ** The process state and the monad of the service

    One world holds the collection of [Url] documents, the singleton cache,
    the clock, the random source and the ObjectId counter.  A computation
    either returns or throws; what it did to the world before throwing
    stays done.  The clock stands still during one call and moves between
    calls ([advance]). *)

(** The object [getByShortCode] caches and returns:
    [{ originalUrl, shortCode, id }]. *)
Record UrlData : Type := mkUrlData {
  d_originalUrl : string;
  d_shortCode : string;
  d_id : ObjectId
}.

(** [url.expiresAt] read off such an object: it has no such property. *)
Definition UrlData_expiresAt (d : UrlData) : option Z := None.

Record World : Type := mkWorld {
  db : list Url.t;
  urlCache : UrlCache.t UrlData;
  clock : Z;
  rng : ShortCode.Rng;
  nextOid : nat
}.

Definition with_db (w : World) (d : list Url.t) : World :=
  mkWorld d (urlCache w) (clock w) (rng w) (nextOid w).

Definition with_urlCache (w : World) (c : UrlCache.t UrlData) : World :=
  mkWorld (db w) c (clock w) (rng w) (nextOid w).

Definition with_rng (w : World) (r : ShortCode.Rng) : World :=
  mkWorld (db w) (urlCache w) (clock w) r (nextOid w).

(** Time passing between two requests. *)
Definition advance (dt : Z) (w : World) : World :=
  mkWorld (db w) (urlCache w) (clock w + dt) (rng w) (nextOid w).

Definition M (A : Type) : Type := World -> (Thrown + A) * World.

Definition ret {A : Type} (a : A) : M A := fun w => (inr a, w).

Definition throw {A : Type} (e : Thrown) : M A := fun w => (inl e, w).

Definition bind {A B : Type} (m : M A) (k : A -> M B) : M B :=
  fun w =>
    match m w with
    | (inl e, w') => (inl e, w')
    | (inr a, w') => k a w'
    end.

(** [p.catch(console.error)]: the outcome of [p] is dropped. *)
Definition swallow {A : Type} (m : M A) : M unit :=
  fun w => (inr tt, snd (m w)).

Declare Scope service_scope.
Delimit Scope service_scope with service.
Notation "x <- m ;; k" := (bind m (fun x => k))
  (at level 61, m at next level, right associativity) : service_scope.
Notation "m ;;; k" := (bind m (fun _ => k))
  (at level 61, right associativity) : service_scope.
Local Open Scope service_scope.

(** [Date.now()] and [new Date()] *)
Definition Date_now : M Z := fun w => (inr (clock w), w).

(** *** The collection *)

Definition findOne (q : Url.t -> bool) : M (option Url.t) :=
  fun w => (inr (find q (db w)), w).

(** [Url.exists(q)]: a document id or [null], used as a condition. *)
Definition exists_ (q : Url.t -> bool) : M bool :=
  fun w => (inr (existsb q (db w)), w).

(** [updateOne({ _id }, doc)]: the first document with that id. *)
Fixpoint updateOne (u : Url.t) (docs : list Url.t) : list Url.t :=
  match docs with
  | [] => []
  | d :: docs' =>
      if oid_eqb (Url._id d) (Url._id u) then u :: docs' else d :: updateOne u docs'
  end.

(** [deleteOne]: the first document matching [q]. *)
Fixpoint deleteFirst (q : Url.t -> bool) (docs : list Url.t) : list Url.t :=
  match docs with
  | [] => []
  | d :: docs' => if q d then docs' else d :: deleteFirst q docs'
  end.

Definition has_id (i : ObjectId) (docs : list Url.t) : bool :=
  existsb (fun d => oid_eqb (Url._id d) i) docs.

(** [url.save()] of a document whose assignments left [castError] cast
    errors behind: validation first; a document the collection does not hold
    is inserted, under the unique index on [shortCode] and with its
    [createdAt] stamp; one it holds is written back by id. *)
Definition save (u : Url.t) (castError : bool) : M Url.t :=
  fun w =>
    if castError || negb (Url.validate u) then (inl ValidationError, w)
    else if has_id (Url._id u) (db w) then (inr u, with_db w (updateOne u (db w)))
    else if existsb (fun d => (Url.shortCode d =? Url.shortCode u)%string) (db w)
         then (inl DuplicateKey, w)
    else
      let u' := Url.set_createdAt (clock w) u in
      (inr u', with_db w (db w ++ [u'])).

Definition findOneAndDelete (q : Url.t -> bool) : M (option Url.t) :=
  fun w => (inr (find q (db w)), with_db w (deleteFirst q (db w))).

(** A fresh ObjectId for [new Url(...)]. *)
Definition newObjectId : M ObjectId :=
  fun w => (inr (Oid (nextOid w)),
            mkWorld (db w) (urlCache w) (clock w) (rng w) (S (nextOid w))).

(** *** The singleton [urlCache] *)

Definition urlCache_get (shortCode : string) : M (option UrlData) :=
  fun w =>
    let (r, c) := UrlCache.get (clock w) shortCode (urlCache w) in
    (inr r, with_urlCache w c).

Definition urlCache_set (shortCode : string) (urlData : UrlData) : M unit :=
  fun w => (inr tt, with_urlCache w (UrlCache.set (clock w) shortCode urlData (urlCache w))).

Definition urlCache_invalidate (shortCode : string) : M unit :=
  fun w => (inr tt, with_urlCache w (UrlCache.invalidate shortCode (urlCache w))).

(** ** services/cleanupService.js and services/urlService.js *)

Record UrlResponse : Type := mkUrlResponse {
  r_id : ObjectId;
  r_originalUrl : string;
  r_shortCode : string;
  r_shortUrl : string;
  r_clicks : Z;
  r_isActive : option bool;
  r_createdAt : Z;
  r_expiresAt : option Z
}.

Record CreateParams : Type := mkCreateParams {
  p_originalUrl : string;
  p_customSlug : option string;
  p_userId : option ObjectId;
  p_guestId : option string;
  p_expiresAt : Value
}.

Definition GUEST_URL_EXPIRY_DAYS : Z := 7.

Definition allowedUpdates : list string := ["originalUrl"; "isActive"; "expiresAt"].

Definition includes (l : list string) (key : string) : bool :=
  existsb (fun k => (k =? key)%string) l.

Definition is_some {A : Type} (o : option A) : bool :=
  match o with Some _ => true | None => false end.

(** The queries of the service. *)
Definition by_shortCode (shortCode : string) (u : Url.t) : bool :=
  (Url.shortCode u =? shortCode)%string.

Definition by_shortCode_active (shortCode : string) (u : Url.t) : bool :=
  (Url.shortCode u =? shortCode)%string &&
  match Url.isActive u with Some true => true | _ => false end.

Definition by_shortCode_userId (shortCode : string) (userId : ObjectId) (u : Url.t) : bool :=
  (Url.shortCode u =? shortCode)%string && opt_oid_eqb (Url.userId u) (Some userId).

Definition by_shortCode_guestId (shortCode guestId : string) (u : Url.t) : bool :=
  (Url.shortCode u =? shortCode)%string && opt_str_eqb (Url.guestId u) (Some guestId).

Section Service.
Context `{Platform}.

(** [urlSchema.statics.findByShortCode] *)
Definition findByShortCode (shortCode : string) : M (option Url.t) :=
  findOne (by_shortCode_active shortCode).

Definition getGuestUrlExpirationDate : M Z :=
  expirationDate <- Date_now ;;
  ret (Date_plusDays GUEST_URL_EXPIRY_DAYS expirationDate).

Definition isValidUrl (s : string) : bool :=
  match URL_protocol s with
  | Some protocol => (protocol =? "http:")%string || (protocol =? "https:")%string
  | None => false
  end.

Definition formatUrlResponse (url : Url.t) : UrlResponse :=
  mkUrlResponse (Url._id url) (Url.originalUrl url) (Url.shortCode url)
                (serverUrl ++ "/" ++ Url.shortCode url)
                (Url.clicks url) (Url.isActive url) (Url.createdAt url) (Url.expiresAt url).

(** [generateUniqueShortCode(async (code) => Url.exists({ shortCode: code }))] *)
Definition generateUniqueShortCode_db : M string :=
  fun w =>
    let '(code, _, r) :=
      ShortCode.generateUniqueShortCode
        (fun code => existsb (by_shortCode code) (db w)) (rng w) in
    (inr code, with_rng w r).

(** The block of [createUrl] that settles the short code: the custom slug
    when one is given, valid and free, a generated code otherwise. *)
Definition chooseShortCode (p : CreateParams) : M string :=
  match or_null (p_customSlug p) with
  | Some customSlug =>
      if negb (ShortCode.isValidSlug customSlug) then
        throw (ThrowApp (AppError.badRequest
          "Invalid slug format. Use 3-50 alphanumeric characters, hyphens, or underscores"))
      else
        existing <- findOne (by_shortCode customSlug) ;;
        if is_some existing then
          throw (ThrowApp (AppError.conflict "This custom slug is already taken"))
        else ret customSlug
  | None => generateUniqueShortCode_db
  end.

(** The block of [createUrl] that settles [urlExpiration]; an invalid date
    is a cast error of the [expiresAt] path. *)
Definition determineExpiration (p : CreateParams) : M (Cast Z) :=
  if truthy_str (p_guestId p) && negb (is_some (p_userId p)) then
    t <- getGuestUrlExpirationDate ;; ret (CastOk (Some t))
  else if is_some (p_userId p) && truthy (p_expiresAt p) then
    ret (match Date_new (p_expiresAt p) with
         | Some t => CastOk (Some t)
         | None => CastError
         end)
  else ret (CastOk None).

(** [new Url({...})] with the defaults of the schema. *)
Definition newUrl (id : ObjectId) (p : CreateParams) (shortCode : string)
           (urlExpiration : Cast Z) : Url.t * bool :=
  let '(originalUrl, e1) :=
    match cast_originalUrl (VStr (p_originalUrl p)) with
    | CastOk (Some s) => (s, false)
    | _ => (p_originalUrl p, true)
    end in
  let '(expiresAt, e2) :=
    match urlExpiration with
    | CastOk t => (t, false)
    | CastError => (None, true)
    end in
  (Url.mkUrl id originalUrl shortCode (or_null (p_customSlug p))
             (p_userId p) (or_null (p_guestId p)) 0 [] (Some true)
             expiresAt None 0,
   e1 || e2).

Definition createUrl (p : CreateParams) : M UrlResponse :=
  if negb (isValidUrl (p_originalUrl p)) then
    throw (ThrowApp (AppError.badRequest "Invalid URL format"))
  else
    shortCode <- chooseShortCode p ;;
    urlExpiration <- determineExpiration p ;;
    id <- newObjectId ;;
    let (doc, castError) := newUrl id p shortCode urlExpiration in
    url <- save doc castError ;;
    ret (formatUrlResponse url).

Definition getByShortCode (shortCode : string) : M UrlData :=
  cached <- urlCache_get shortCode ;;
  match cached with
  | Some urlData => ret urlData
  | None =>
      url <- findByShortCode shortCode ;;
      match url with
      | None => throw (ThrowApp (AppError.notFound "URL not found"))
      | Some url =>
          now <- Date_now ;;
          if match Url.expiresAt url with Some t => t <? now | None => false end then
            throw (ThrowApp (AppError.notFound "URL has expired"))
          else
            let urlData := mkUrlData (Url.originalUrl url) (Url.shortCode url) (Url._id url) in
            urlCache_set shortCode urlData ;;;
            ret urlData
      end
  end.

Definition recordClick (shortCode : string) (clickData : Url.ClickData) : M unit :=
  url <- findOne (by_shortCode shortCode) ;;
  match url with
  | Some url =>
      now <- Date_now ;;
      save (Url.recordClick now clickData url) false ;;;
      ret tt
  | None => ret tt
  end.

(** [url[key] = v] on a document, with the cast errors so far.  Unsetting
    the required [originalUrl] is kept as an error for [save]. *)
Definition assign (key : string) (v : Value) (st : Url.t * bool) : Url.t * bool :=
  let (url, err) := st in
  if (key =? "originalUrl")%string then
    match cast_originalUrl v with
    | CastOk (Some s) => (Url.set_originalUrl s url, err)
    | CastOk None => (url, true)
    | CastError => (url, true)
    end
  else if (key =? "isActive")%string then
    match cast_isActive v with
    | CastOk b => (Url.set_isActive b url, err)
    | CastError => (url, true)
    end
  else if (key =? "expiresAt")%string then
    match cast_expiresAt v with
    | CastOk t => (Url.set_expiresAt t url, err)
    | CastError => (url, true)
    end
  else st.

(** The body of [Object.keys(updates).forEach(key => ...)]. *)
Definition applyUpdate (st : Url.t * bool) (kv : string * Value) : Url.t * bool :=
  let (key, v) := kv in
  if includes allowedUpdates key then
    if (key =? "expiresAt")%string && negb (truthy v)
    then (Url.set_expiresAt None (fst st), snd st)
    else assign key v st
  else st.

Definition updateUrl (shortCode : string) (userId : ObjectId)
           (updates : list (string * Value)) : M UrlResponse :=
  url <- findOne (by_shortCode_userId shortCode userId) ;;
  match url with
  | None => throw (ThrowApp (AppError.notFound "URL not found or access denied"))
  | Some url =>
      let (url', err) := fold_left applyUpdate updates (url, false) in
      url'' <- save url' err ;;
      urlCache_invalidate (Url.shortCode url'') ;;;
      ret (formatUrlResponse url'')
  end.

Definition deleteUrl (shortCode : string) (userId : ObjectId) : M string :=
  url <- findOneAndDelete (by_shortCode_userId shortCode userId) ;;
  match url with
  | None => throw (ThrowApp (AppError.notFound "URL not found or access denied"))
  | Some url =>
      urlCache_invalidate (Url.shortCode url) ;;;
      ret "URL deleted successfully"
  end.

Definition deleteGuestUrl (shortCode guestId : string) : M string :=
  url <- findOneAndDelete (by_shortCode_guestId shortCode guestId) ;;
  match url with
  | None => throw (ThrowApp (AppError.notFound "URL not found or access denied"))
  | Some url =>
      urlCache_invalidate (Url.shortCode url) ;;;
      ret "URL deleted successfully"
  end.

(** ** controllers/urlController.js: [redirectUrl] *)

Record Request : Type := mkRequest {
  params_shortCode : string;
  header_userAgent : option string;
  header_referer : option string;
  header_referrer : option string;
  req_ip : option string
}.

Inductive Response : Type :=
| Redirect (status : Z) (location : string)
| Next (error : Thrown).

(** The [try] block.  [url] is an object, so [!url] is false; [AppError]
    has no [gone], so calling it is a [TypeError].  The click is recorded
    without being awaited and its failure goes to [console.error]; the
    referer header travels under the key [referrer]. *)
Definition redirectUrl_try (req : Request) : M Response :=
  let shortCode := params_shortCode req in
  url <- getByShortCode shortCode ;;
  now <- Date_now ;;
  if match UrlData_expiresAt url with Some t => now >? t | None => false end then
    throw (TypeError "AppError.gone is not a function")
  else
    swallow (recordClick shortCode
               (Url.mkClickData (req_ip req) (header_userAgent req) None
                  (if truthy_str (header_referer req) then header_referer req
                   else header_referrer req))) ;;;
    ret (Redirect 301 (d_originalUrl url)).

Definition redirectUrl (req : Request) (w : World) : Response * World :=
  match redirectUrl_try req w with
  | (inl error, w') => (Next error, w')
  | (inr res, w') => (res, w')
  end.

End Service.

(** Successive calls of [getByShortCode shortCode] with no other use of the
    cache in between: each call comes [dt] milliseconds after the one
    before, when the collection holds [docs]. *)
Fixpoint resolves (shortCode : string) (calls : list (Z * list Url.t)) (w : World)
  : list (Thrown + UrlData) * World :=
  match calls with
  | [] => ([], w)
  | (dt, docs) :: calls =>
      let (r, w1) := getByShortCode shortCode (advance dt (with_db w docs)) in
      let (rs, w2) := resolves shortCode calls w1 in
      (r :: rs, w2)
  end.

(** ** The collection, continued: the bulk operations *)

(** [deleteMany(q)]: the count deleted. *)
Definition deleteMany (q : Url.t -> bool) : M nat :=
  fun w => (inr (List.length (filter q (db w))),
            with_db w (filter (fun d => negb (q d)) (db w))).

(** [updateMany(q, { $set })] where the update changes every document
    it matches: the count modified. *)
Definition updateMany (q : Url.t -> bool) (f : Url.t -> Url.t) : M nat :=
  fun w => (inr (List.length (filter q (db w))),
            with_db w (map (fun d => if q d then f d else d) (db w))).

(** [{ expiresAt: { $lt: now } }] *)
Definition expired_before (now : Z) (u : Url.t) : bool :=
  match Url.expiresAt u with
  | Some t => t <? now
  | None => false
  end.

(** [{ guestId: { $ne: null }, userId: null, expiresAt: null }] *)
Definition guest_without_expiry (u : Url.t) : bool :=
  is_some (Url.guestId u) && negb (is_some (Url.userId u)) && negb (is_some (Url.expiresAt u)).

(** What the collection must satisfy under its indexes: one document per
    short code and per id, every id older than the next one handed out. *)
Definition store_ok (w : World) : Prop :=
  NoDup (map Url.shortCode (db w)) /\
  NoDup (map Url._id (db w)) /\
  forall u, In u (db w) -> match Url._id u with Oid n => (n < nextOid w)%nat end.

(** ** services/cleanupService.js, the [Url] part; services/urlService.js,
    [getUrlStats] *)

(** What [getUrlStats] returns: the formatted document and the three
    statistics. *)
Record UrlStats : Type := mkUrlStats {
  st_url : UrlResponse;
  st_totalClicks : Z;
  st_clicksByDate : JsMap.t Z;
  st_recentClicks : list Url.Click
}.

(** [arr.slice(-n)] *)
Definition slice_last {A : Type} (n : nat) (l : list A) : list A :=
  skipn (List.length l - n) l.

Section Maintenance.
Context `{Platform}.
(** [d.toISOString().split('T')[0]]: the UTC calendar date of an instant. *)
Variable isoDate : Z -> string.

Definition cleanupExpiredUrls : M nat :=
  now <- Date_now ;;
  deleteMany (expired_before now).

Definition setExpirationForGuestUrls : M nat :=
  expirationDate <- Date_now ;;
  let expirationDate := Date_plusDays GUEST_URL_EXPIRY_DAYS expirationDate in
  updateMany guest_without_expiry (Url.set_expiresAt (Some expirationDate)).

(** The body of the [forEach] of [getUrlStats]:
    [clicksByDate[date] = (clicksByDate[date] || 0) + 1]. *)
Definition countClick (clicksByDate : JsMap.t Z) (click : Url.Click) : JsMap.t Z :=
  let date := isoDate (Url.timestamp click) in
  let seen := match JsMap.get date clicksByDate with
              | Some n => if n =? 0 then 0 else n
              | None => 0
              end in
  JsMap.set date (seen + 1) clicksByDate.

Definition getUrlStats (shortCode : string) (userId : ObjectId) : M UrlStats :=
  url <- findOne (by_shortCode_userId shortCode userId) ;;
  match url with
  | None => throw (ThrowApp (AppError.notFound "URL not found or access denied"))
  | Some url =>
      let clicksByDate := fold_left countClick (Url.clickHistory url) [] in
      ret (mkUrlStats (formatUrlResponse url) (Url.clicks url) clicksByDate
                      (slice_last 10 (Url.clickHistory url)))
  end.

End Maintenance.

(** ** controllers/urlController.js: [createUrl] *)

Module Controller.

Record CreateRequest : Type := mkCreateRequest {
  req_user : option ObjectId;
  x_guest_id : option string;
  body_originalUrl : option string;
  body_customSlug : option string;
  body_expiresAt : Value;
  req_protocol : string;
  req_host : string
}.

(** The object the controller's [formatUrlResponse] builds.  It reads
    [_id] and [updatedAt] off the object the service returned, which has
    neither. *)
Record UrlJson : Type := mkUrlJson {
  j_id : option ObjectId;
  j_shortCode : string;
  j_shortUrl : string;
  j_originalUrl : string;
  j_clicks : Z;
  j_isActive : option bool;
  j_expiresAt : option Z;
  j_createdAt : Z;
  j_updatedAt : option Z
}.

Inductive CreateResponse : Type :=
| Created (status : Z) (url : UrlJson)
| NextError (error : Thrown).

Definition formatUrlResponse (url : UrlResponse) (req : CreateRequest) : UrlJson :=
  let baseUrl := req_protocol req ++ "://" ++ req_host req in
  mkUrlJson None (r_shortCode url) (baseUrl ++ "/" ++ r_shortCode url) (r_originalUrl url)
            (r_clicks url) (r_isActive url) (r_expiresAt url) (r_createdAt url) None.

Section WithPlatform.
Context `{Platform}.

(** The parameters the controller hands to the service. *)
Definition createParams (req : CreateRequest) : CreateParams :=
  let userId := req_user req in
  let guestId := if negb (is_some userId) then x_guest_id req else None in
  mkCreateParams
    (match body_originalUrl req with Some s => s | None => "" end)
    (body_customSlug req)
    userId guestId
    (if is_some userId then body_expiresAt req else VNull).

Definition createUrl_try (req : CreateRequest) : M CreateResponse :=
  if negb (truthy_str (body_originalUrl req)) then
    throw (ThrowApp (AppError.badRequest "Original URL is required"))
  else
    let p := createParams req in
    if negb (is_some (p_userId p)) && negb (truthy_str (p_guestId p)) then
      throw (ThrowApp (AppError.badRequest "User authentication or guest ID required"))
    else
      url <- createUrl p ;;
      ret (Created 201 (formatUrlResponse url req)).

Definition createUrl (req : CreateRequest) (w : World) : CreateResponse * World :=
  match createUrl_try req w with
  | (inl error, w') => (NextError error, w')
  | (inr res, w') => (res, w')
  end.

End WithPlatform.
End Controller.

(** ** A concrete platform and concrete states, for running the model *)

Module Sample.

Definition starts_with (p s : string) : bool := String.prefix p s.

(** A server in UTC, whose casters accept the values of the schema's own
    types and convert nothing else. *)
#[export] Instance platform : Platform := {|
  URL_protocol s :=
    if starts_with "https://" s then Some "https:"
    else if starts_with "http://" s then Some "http:"
    else None;
  Date_new v := match v with VNum n => Some n | _ => None end;
  Date_plusDays n d := d + n * 86400000;
  cast_originalUrl v :=
    match v with
    | VStr s => CastOk (Some s)
    | VUndefined | VNull => CastOk None
    | _ => CastError
    end;
  cast_isActive v :=
    match v with
    | VBool b => CastOk (Some b)
    | VUndefined | VNull => CastOk None
    | _ => CastError
    end;
  cast_expiresAt v :=
    match v with
    | VNum n => CastOk (Some n)
    | VUndefined | VNull => CastOk None
    | _ => CastError
    end;
  serverUrl := "http://localhost:5000"
|}.

Definition alice : ObjectId := Oid 100.
Definition bob : ObjectId := Oid 101.

(** A link of [alice] that expires at instant [expires]. *)
Definition promo (expires : option Z) : Url.t :=
  Url.mkUrl (Oid 1) "https://example.com" "promo" (Some "promo") (Some alice) None
            0 [] (Some true) expires None 0.

Definition zeros : ShortCode.Rng := ShortCode.mkRng (fun _ => x00) 0.

(** The process right after start, holding [docs], at instant [now]. *)
Definition world (docs : list Url.t) (now : Z) : World :=
  mkWorld docs (UrlCache.create UrlData config.cache_maxSize config.cache_ttl) now zeros 2.

Definition request (shortCode : string) : Request :=
  mkRequest shortCode (Some "curl/8") None None (Some "10.0.0.1").

(** A tape whose first six bytes are 0 and all later ones 1: the first
    code drawn is "aaaaaa", the following ones "bbbbbb". *)
Definition zeros_then_ones : ShortCode.Rng :=
  ShortCode.mkRng (fun i => if (i <? 6)%nat then x00 else x01) 0.

(** A link of [alice] with a ten-minute life, resolved once at instant 0,
    so that the cache holds it for the next hour. *)
Definition short_lived : Url.t := promo (Some 600000).

Definition after_first_visit : World :=
  snd (redirectUrl (request "promo") (world [short_lived] 0)).

(** Twenty minutes later: the link has expired and is still in the
    collection; its cache entry has forty minutes left. *)
Definition twenty_minutes_later : World := advance 1200000 after_first_visit.

Definition click : Url.ClickData :=
  Url.mkClickData (Some "10.0.0.1") (Some "curl/8") (Some "https://ref.example") None.

Definition guest_params : CreateParams :=
  mkCreateParams "https://example.com/a" None None (Some "guest_1f") (VNum 99).


(** A cache of capacity 2 holding "a" (last accessed at 5, hit 9 times)
    and "b" (last accessed at 3, hit once). *)
Definition full_cache : UrlCache.t nat :=
  UrlCache.mkCache
    [("a", UrlCache.mkEntry 10%nat 100 9 5); ("b", UrlCache.mkEntry 20%nat 100 1 3)]
    2 100.

End Sample.

(** * Facts *)

(** ** [JsMap] *)

Module JsMapFacts.
Section Facts.
Variable V : Type.
Implicit Types (m : JsMap.t V) (k : string) (v : V).

Lemma get_set_same k v m : JsMap.get k (JsMap.set k v m) = Some v.
Proof.
  induction m as [|[k' v'] m IH]; simpl.
  - now rewrite String.eqb_refl.
  - destruct (String.eqb_spec k' k) as [->|Hne]; simpl.
    + now rewrite String.eqb_refl.
    + destruct (String.eqb_spec k' k); [contradiction | exact IH].
Qed.

Lemma get_delete_same k m : JsMap.get k (JsMap.delete k m) = None.
Proof.
  induction m as [|[k' v'] m IH]; simpl; [reflexivity|].
  destruct (String.eqb_spec k' k) as [->|Hne]; simpl; [exact IH|].
  destruct (String.eqb_spec k' k); [contradiction | exact IH].
Qed.

Lemma get_In k v m : JsMap.get k m = Some v -> In (k, v) m.
Proof.
  induction m as [|[k' v'] m IH]; simpl; [discriminate|].
  destruct (String.eqb_spec k' k) as [->|Hne]; intros E.
  - injection E as ->. now left.
  - right. auto.
Qed.

Lemma get_None_keys k m : JsMap.get k m = None <-> ~ In k (JsMap.keys m).
Proof.
  induction m as [|[k' v'] m IH]; simpl; [tauto|].
  destruct (String.eqb_spec k' k) as [->|Hne].
  - split; [discriminate | intros N; exfalso; apply N; now left].
  - rewrite IH. tauto.
Qed.

Lemma keys_set_in k v m :
  In k (JsMap.keys m) -> JsMap.keys (JsMap.set k v m) = JsMap.keys m.
Proof.
  induction m as [|[k' v'] m IH]; simpl; [tauto|].
  destruct (String.eqb_spec k' k) as [->|Hne]; simpl; [reflexivity|].
  intros [E|Hin]; [contradiction|]. f_equal. exact (IH Hin).
Qed.

Lemma keys_set_fresh k v m :
  ~ In k (JsMap.keys m) -> JsMap.keys (JsMap.set k v m) = (JsMap.keys m ++ [k])%list.
Proof.
  induction m as [|[k' v'] m IH]; simpl; [reflexivity|].
  destruct (String.eqb_spec k' k) as [->|Hne]; simpl; intros N.
  - exfalso. apply N. now left.
  - f_equal. apply IH. tauto.
Qed.

Lemma keys_delete k m :
  JsMap.keys (JsMap.delete k m) =
  filter (fun k' => negb (k' =? k)%string) (JsMap.keys m).
Proof.
  induction m as [|[k' v'] m IH]; simpl; [reflexivity|].
  destruct (String.eqb_spec k' k); simpl; [exact IH | now f_equal].
Qed.

Lemma delete_absent k m : ~ In k (JsMap.keys m) -> JsMap.delete k m = m.
Proof.
  induction m as [|[k' v'] m IH]; simpl; [reflexivity|].
  destruct (String.eqb_spec k' k) as [->|Hne]; intros N.
  - exfalso. apply N. now left.
  - f_equal. apply IH. tauto.
Qed.

Lemma size_delete k m :
  NoDup (JsMap.keys m) -> In k (JsMap.keys m) ->
  S (JsMap.size (JsMap.delete k m)) = JsMap.size m.
Proof.
  unfold JsMap.size.
  induction m as [|[k' v'] m IH]; simpl; [tauto|].
  intros ND Hin. inversion ND as [|? ? Hnotin ND']; subst.
  destruct (String.eqb_spec k' k) as [->|Hne].
  - now rewrite delete_absent.
  - destruct Hin as [E|Hin]; [contradiction|]. simpl. f_equal. now apply IH.
Qed.

Lemma size_set_in k v m :
  In k (JsMap.keys m) -> JsMap.size (JsMap.set k v m) = JsMap.size m.
Proof.
  intros Hin. unfold JsMap.size.
  rewrite <- (length_map fst (JsMap.set k v m)), <- (length_map fst m).
  change (map fst (JsMap.set k v m)) with (JsMap.keys (JsMap.set k v m)).
  now rewrite keys_set_in.
Qed.

Lemma size_set_fresh k v m :
  ~ In k (JsMap.keys m) -> JsMap.size (JsMap.set k v m) = S (JsMap.size m).
Proof.
  intros Hin. unfold JsMap.size.
  rewrite <- (length_map fst (JsMap.set k v m)), <- (length_map fst m).
  change (map fst (JsMap.set k v m)) with (JsMap.keys (JsMap.set k v m)).
  rewrite keys_set_fresh by exact Hin.
  rewrite length_app. simpl. unfold JsMap.keys. lia.
Qed.

Lemma NoDup_keys_delete k m : NoDup (JsMap.keys m) -> NoDup (JsMap.keys (JsMap.delete k m)).
Proof. intros ND. rewrite keys_delete. now apply NoDup_filter. Qed.

Lemma NoDup_keys_set k v m : NoDup (JsMap.keys m) -> NoDup (JsMap.keys (JsMap.set k v m)).
Proof.
  intros ND. destruct (in_dec string_dec k (JsMap.keys m)) as [Hin|Hnin].
  - now rewrite keys_set_in.
  - rewrite keys_set_fresh by exact Hnin.
    apply NoDup_app; [exact ND | repeat constructor; simpl; tauto |].
    intros x Hx [<-|[]]. contradiction.
Qed.

Lemma In_keys_delete k k' m :
  In k' (JsMap.keys (JsMap.delete k m)) <-> In k' (JsMap.keys m) /\ k' <> k.
Proof.
  rewrite keys_delete, filter_In.
  destruct (String.eqb_spec k' k); simpl; intuition congruence.
Qed.

Lemma In_keys_set k v k' m :
  In k' (JsMap.keys (JsMap.set k v m)) <-> In k' (JsMap.keys m) \/ k' = k.
Proof.
  destruct (in_dec string_dec k (JsMap.keys m)) as [Hin|Hnin].
  - rewrite keys_set_in by exact Hin. intuition congruence.
  - rewrite keys_set_fresh by exact Hnin. rewrite in_app_iff. simpl. intuition congruence.
Qed.

End Facts.
End JsMapFacts.

(** ** [UrlCache] *)

Module UrlCacheFacts.
Import UrlCache.
Section Facts.
Variable Data : Type.
Implicit Types (c : UrlCache.t Data) (m : JsMap.t (Entry Data)) (e : Entry Data).

(** The scan keeps a binding of the map that no binding is older than. *)
Lemma fold_older_min m : forall a,
  let r := fold_left (@older Data) m (Some a) in
  exists b, r = Some b /\ (b = a \/ In b m) /\
            lastAccess (snd b) <= lastAccess (snd a) /\
            forall x, In x m -> lastAccess (snd b) <= lastAccess (snd x).
Proof.
  induction m as [|x m IH]; intros a; simpl.
  - exists a. split; [reflexivity|]. split; [now left|]. split; [lia|]. intros ? [].
  - destruct a as [ka ea]. simpl.
    destruct (Z.ltb_spec (lastAccess (snd x)) (lastAccess ea)) as [Hlt|Hge].
    + destruct (IH x) as (b & Hb & Hin & Hle & Hall). exists b.
      split; [exact Hb|]. split; [right; destruct Hin; [left; congruence | now right]|].
      simpl. split; [lia|]. intros y [<-|Hy]; [lia | auto].
    + destruct (IH (ka, ea)) as (b & Hb & Hin & Hle & Hall). exists b.
      split; [exact Hb|]. split; [destruct Hin; [now left | right; now right]|].
      simpl in *. split; [lia|]. intros y [<-|Hy]; [lia | auto].
Qed.

Lemma scan_min m :
  m <> [] ->
  exists k e, scan m = Some (k, e) /\ In (k, e) m /\
              forall k' e', In (k', e') m -> lastAccess e <= lastAccess e'.
Proof.
  destruct m as [|x m]; [congruence|]. intros _. unfold scan. simpl.
  destruct (fold_older_min m x) as ([k e] & Hb & Hin & Hle & Hall).
  exists k, e. split; [exact Hb|]. split.
  - destruct Hin as [->|Hin]; [now left | now right].
  - intros k' e' [E|Hin']; [subst x; exact Hle | exact (Hall _ Hin')].
Qed.

(** Rewriting the hit counters does not move the scan. *)
Lemma fold_older_rehit h m : forall acc,
  fold_left (@older Data) (rehit h m)
            (option_map (fun ke => (fst ke, mkEntry (data (snd ke)) (expiresAt (snd ke))
                                               (h (fst ke) (snd ke)) (lastAccess (snd ke)))) acc)
  = option_map (fun ke => (fst ke, mkEntry (data (snd ke)) (expiresAt (snd ke))
                                     (h (fst ke) (snd ke)) (lastAccess (snd ke))))
               (fold_left (@older Data) m acc).
Proof.
  induction m as [|x m IH]; intros acc; simpl; [reflexivity|].
  rewrite <- IH. f_equal.
  destruct acc as [[ka ea]|]; simpl; [|reflexivity].
  now destruct (lastAccess (snd x) <? lastAccess ea).
Qed.

Lemma scan_rehit h m : option_map fst (scan (rehit h m)) = option_map fst (scan m).
Proof.
  unfold scan. pose proof (fold_older_rehit h m None) as E. simpl in E. rewrite E.
  now destruct (fold_left (@older Data) m None).
Qed.

(** What [evictLeastUsed] does to a cache with a binding and no empty key. *)
Lemma evictLeastUsed_spec c :
  wf c -> cache c <> [] -> (forall k, In k (JsMap.keys (cache c)) -> k <> "") ->
  exists k e,
    In (k, e) (cache c) /\
    (forall k' e', In (k', e') (cache c) -> lastAccess e <= lastAccess e') /\
    (forall h, option_map fst (scan (rehit h (cache c))) = Some k) /\
    evictLeastUsed c = with_cache c (JsMap.delete k (cache c)) /\
    S (JsMap.size (JsMap.delete k (cache c))) = JsMap.size (cache c).
Proof.
  intros Hwf Hne Hkeys.
  destruct (scan_min Hne) as (k & e & Hscan & Hin & Hmin).
  assert (Hk : In k (JsMap.keys (cache c))) by (apply (in_map fst) in Hin; exact Hin).
  exists k, e. repeat split; auto.
  - intros h. now rewrite scan_rehit, Hscan.
  - unfold evictLeastUsed. rewrite Hscan. simpl.
    destruct (String.eqb_spec k ""); [exfalso; eapply Hkeys; eauto | reflexivity].
  - now apply JsMapFacts.size_delete.
Qed.

(** The entry [set] leaves under its key. *)
Lemma get_set now code d c :
  JsMap.get code (cache (set now code d c)) = Some (mkEntry d (now + ttl c) 1 now).
Proof.
  unfold set. simpl. rewrite JsMapFacts.get_set_same. f_equal. f_equal.
  destruct (maxSize c <=? JsMap.size (cache c))%nat; [|reflexivity].
  unfold evictLeastUsed. destruct (scan (cache c)) as [[k e]|]; [|reflexivity].
  now destruct (truthy_str (Some k)).
Qed.

Lemma maxSize_set now code d c : maxSize (set now code d c) = maxSize c.
Proof.
  unfold set. simpl.
  destruct (maxSize c <=? JsMap.size (cache c))%nat; [|reflexivity].
  unfold evictLeastUsed. destruct (scan (cache c)) as [[k e]|]; [|reflexivity].
  now destruct (truthy_str (Some k)).
Qed.

(** One [set] of a new, non-empty code into a well-formed cache within its
    capacity. *)
Lemma set_fresh_size now code d c :
  (0 < maxSize c)%nat -> wf c ->
  (forall k, In k (JsMap.keys (cache c)) -> k <> "") ->
  ~ In code (JsMap.keys (cache c)) ->
  (JsMap.size (cache c) <= maxSize c)%nat ->
  let c' := set now code d c in
  JsMap.size (cache c') = Nat.min (S (JsMap.size (cache c))) (maxSize c) /\
  wf c' /\
  (forall k, In k (JsMap.keys (cache c')) -> In k (JsMap.keys (cache c)) \/ k = code).
Proof.
  intros Hpos Hwf Hkeys Hfresh Hle. unfold set.
  destruct (Nat.leb_spec (maxSize c) (JsMap.size (cache c))) as [Hfull|Hroom];
    cbn [cache with_cache maxSize ttl].
  - assert (Hne : cache c <> []).
    { intros E. rewrite E in Hfull. simpl in Hfull. lia. }
    destruct (evictLeastUsed_spec Hwf Hne Hkeys) as (k & e & Hin & _ & _ & Hev & Hsz).
    rewrite Hev. cbn [cache with_cache maxSize ttl].
    assert (Hfresh' : ~ In code (JsMap.keys (JsMap.delete k (cache c)))).
    { rewrite JsMapFacts.In_keys_delete. tauto. }
    split; [rewrite JsMapFacts.size_set_fresh by exact Hfresh'; lia|].
    split.
    + unfold wf. simpl. now apply JsMapFacts.NoDup_keys_set, JsMapFacts.NoDup_keys_delete.
    + intros k'. rewrite JsMapFacts.In_keys_set, JsMapFacts.In_keys_delete. tauto.
  - split; [rewrite JsMapFacts.size_set_fresh by exact Hfresh; lia|].
    split.
    + unfold wf. simpl. now apply JsMapFacts.NoDup_keys_set.
    + intros k'. rewrite JsMapFacts.In_keys_set. tauto.
Qed.

(** Every operation keeps one binding per key, so every cache reached from
    [create] is well formed. *)
Lemma NoDup_keys_filter (f : string * Entry Data -> bool) m :
  NoDup (JsMap.keys m) -> NoDup (JsMap.keys (filter f m)).
Proof.
  induction m as [|[k e] m IH]; simpl; [auto|].
  intros ND. inversion ND as [|? ? Hnotin ND']; subst.
  destruct (f (k, e)); simpl; [|auto]. constructor; [|auto].
  intros Hin. apply Hnotin. unfold JsMap.keys in *.
  apply in_map_iff in Hin. destruct Hin as (x & Hx & Hin).
  apply filter_In in Hin. apply in_map_iff. exists x. tauto.
Qed.

Lemma wf_preserved c :
  wf c ->
  (forall now code d, wf (set now code d c)) /\
  (forall now code, wf (snd (get now code c))) /\
  (forall code, wf (invalidate code c)) /\
  (forall now, wf (cleanup now c)) /\
  wf (evictLeastUsed c).
Proof.
  intros Hwf.
  assert (Hev : wf (evictLeastUsed c)).
  { unfold evictLeastUsed. destruct (scan (cache c)) as [[k e]|]; [|exact Hwf].
    destruct (truthy_str (Some k)); [|exact Hwf].
    unfold wf. simpl. now apply JsMapFacts.NoDup_keys_delete. }
  repeat split; try exact Hev.
  - intros now code d. unfold set, wf.
    destruct (maxSize c <=? JsMap.size (cache c))%nat; simpl;
      now apply JsMapFacts.NoDup_keys_set.
  - intros now code. unfold get.
    destruct (JsMap.get code (cache c)) as [e|]; [|exact Hwf].
    destruct (now >? expiresAt e); unfold wf; simpl;
      [now apply JsMapFacts.NoDup_keys_delete | now apply JsMapFacts.NoDup_keys_set].
  - intros code. unfold wf. simpl. now apply JsMapFacts.NoDup_keys_delete.
  - intros now. unfold wf. simpl. now apply NoDup_keys_filter.
Qed.

Lemma wf_create (capacity : nat) (ttl0 : Z) : wf (create Data capacity ttl0).
Proof. constructor. Qed.

End Facts.
End UrlCacheFacts.

Module UrlCacheSpec.
Import UrlCache.
Section Spec.
Variable Data : Type.
Implicit Types (c : UrlCache.t Data) (e : Entry Data).

Lemma setAll_size (calls : list (Z * string * Data)) : forall c,
  (0 < maxSize c)%nat -> wf c ->
  (forall k, In k (JsMap.keys (cache c)) -> k <> "") ->
  NoDup (codes calls) ->
  (forall k, In k (codes calls) -> k <> "" /\ ~ In k (JsMap.keys (cache c))) ->
  (JsMap.size (cache c) <= maxSize c)%nat ->
  JsMap.size (cache (setAll calls c)) =
  Nat.min (JsMap.size (cache c) + List.length calls) (maxSize c).
Proof.
  induction calls as [|[[now code] d] calls IH]; intros c Hpos Hwf Hkeys ND Hcodes Hle.
  - simpl. lia.
  - simpl in ND. inversion ND as [|? ? Hnotin ND']; subst.
    assert (Hcode : code <> "" /\ ~ In code (JsMap.keys (cache c))) by (apply Hcodes; now left).
    destruct (UrlCacheFacts.set_fresh_size now code d Hpos Hwf Hkeys (proj2 Hcode) Hle)
      as (Hsz & Hwf' & Hsub).
    change (setAll ((now, code, d) :: calls) c) with (setAll calls (set now code d c)).
    rewrite IH; rewrite ?UrlCacheFacts.maxSize_set; auto.
    + rewrite Hsz. simpl List.length. lia.
    + intros k Hk. destruct (Hsub k Hk) as [Hold| ->]; [now apply Hkeys | tauto].
    + intros k Hk. split; [apply Hcodes; now right|].
      intros Hin. destruct (Hsub k Hin) as [Hold| ->]; [|contradiction].
      apply (Hcodes k); [now right | exact Hold].
    + rewrite Hsz. lia.
Qed.

(** C5.  In a cache of capacity [maxSize >= 1] whose codes are non-empty:
    [maxSize + 1] [set] calls with distinct codes, starting from the empty
    cache, leave exactly [maxSize] entries; and a [set] that finds the cache
    at capacity first deletes exactly one binding, one that no binding is
    less recently accessed than, chosen whatever the hit counters are, and
    then stores the new entry. *)
Theorem set_evicts_least_recently_used (capacity : nat) (ttl0 : Z) :
  (0 < capacity)%nat ->
  (forall calls : list (Z * string * Data),
      NoDup (codes calls) ->
      (forall k, In k (codes calls) -> k <> "") ->
      List.length calls = S capacity ->
      JsMap.size (cache (setAll calls (create Data capacity ttl0))) = capacity)
  /\
  (forall c now code d,
      maxSize c = capacity -> wf c ->
      (forall k, In k (JsMap.keys (cache c)) -> k <> "") ->
      (capacity <= JsMap.size (cache c))%nat ->
      exists k e,
        In (k, e) (cache c) /\
        (forall k' e', In (k', e') (cache c) -> lastAccess e <= lastAccess e') /\
        (forall h, option_map fst (scan (rehit h (cache c))) = Some k) /\
        S (JsMap.size (JsMap.delete k (cache c))) = JsMap.size (cache c) /\
        set now code d c =
        with_cache c (JsMap.set code (mkEntry d (now + ttl c) 1 now)
                                (JsMap.delete k (cache c)))).
Proof.
  intros Hpos. split.
  - intros calls ND Hne Hlen.
    rewrite setAll_size; simpl; auto; try lia; try constructor.
  - intros c now code d Hmax Hwf Hkeys Hfull.
    assert (Hnil : cache c <> []).
    { intros E. rewrite E in Hfull. simpl in Hfull. lia. }
    destruct (UrlCacheFacts.evictLeastUsed_spec Hwf Hnil Hkeys)
      as (k & e & Hin & Hmin & Hhits & Hev & Hsz).
    exists k, e. repeat split; auto.
    unfold set. rewrite Hmax.
    destruct (Nat.leb_spec capacity (JsMap.size (cache c))); [|lia].
    now rewrite Hev.
Qed.

(** C6.  The entry [set] stores at instant [t0] expires at [t0 + ttl]: a
    [get] later than that returns nothing and deletes the binding, with no
    [cleanup] in between; a [get] up to that instant returns the cached
    data, and the entry then has one more hit and [lastAccess] at the
    instant of the [get].  The same holds of any entry a cache holds. *)
Theorem get_honours_ttl c (t0 : Z) (code : string) (d : Data) :
  let c1 := set t0 code d c in
  JsMap.get code (cache c1) = Some (mkEntry d (t0 + ttl c) 1 t0) /\
  (forall now, now > t0 + ttl c ->
     fst (get now code c1) = None /\
     JsMap.get code (cache (snd (get now code c1))) = None) /\
  (forall now, now <= t0 + ttl c ->
     fst (get now code c1) = Some d /\
     JsMap.get code (cache (snd (get now code c1))) =
     Some (mkEntry d (t0 + ttl c) 2 now)) /\
  (forall c' e now, JsMap.get code (cache c') = Some e ->
     (now > expiresAt e ->
        get now code c' = (None, with_cache c' (JsMap.delete code (cache c'))) /\
        JsMap.get code (JsMap.delete code (cache c')) = None) /\
     (now <= expiresAt e ->
        get now code c' =
        (Some (data e),
         with_cache c' (JsMap.set code (mkEntry (data e) (expiresAt e) (hits e + 1) now)
                                  (cache c'))) /\
        JsMap.get code
          (JsMap.set code (mkEntry (data e) (expiresAt e) (hits e + 1) now) (cache c'))
        = Some (mkEntry (data e) (expiresAt e) (hits e + 1) now))).
Proof.
  intros c1.
  assert (Hget : JsMap.get code (cache c1) = Some (mkEntry d (t0 + ttl c) 1 t0))
    by apply UrlCacheFacts.get_set.
  assert (Hgen : forall c' e now, JsMap.get code (cache c') = Some e ->
     (now > expiresAt e ->
        get now code c' = (None, with_cache c' (JsMap.delete code (cache c'))) /\
        JsMap.get code (JsMap.delete code (cache c')) = None) /\
     (now <= expiresAt e ->
        get now code c' =
        (Some (data e),
         with_cache c' (JsMap.set code (mkEntry (data e) (expiresAt e) (hits e + 1) now)
                                  (cache c'))) /\
        JsMap.get code
          (JsMap.set code (mkEntry (data e) (expiresAt e) (hits e + 1) now) (cache c'))
        = Some (mkEntry (data e) (expiresAt e) (hits e + 1) now))).
  { intros c' e now He. unfold get. rewrite He. split; intros Hnow.
    - destruct (Z.gtb_spec now (expiresAt e)); [|lia].
      split; [reflexivity | apply JsMapFacts.get_delete_same].
    - destruct (Z.gtb_spec now (expiresAt e)); [lia|].
      split; [reflexivity | apply JsMapFacts.get_set_same]. }
  split; [exact Hget|]. split; [|split; [|exact Hgen]].
  - intros now Hnow. destruct (Hgen c1 _ now Hget) as [Hexp _].
    destruct (Hexp Hnow) as [E1 E2]. rewrite E1. simpl. split; [reflexivity | exact E2].
  - intros now Hnow. destruct (Hgen c1 _ now Hget) as [_ Hlive].
    destruct (Hlive Hnow) as [E1 E2]. rewrite E1. simpl. split; [reflexivity | exact E2].
Qed.

End Spec.
End UrlCacheSpec.

(** ** [ShortCode] *)

Module ShortCodeFacts.
Import ShortCode.

Lemma skip_skip a b r : skip a (skip b r) = skip (b + a) r.
Proof. unfold skip. simpl. now rewrite Nat.add_assoc. Qed.

Lemma skip_0 r : skip 0 r = r.
Proof. destruct r. unfold skip. simpl. now rewrite Nat.add_0_r. Qed.

Lemma generateShortCode_rng length r :
  snd (generateShortCode length r) = skip length r.
Proof. reflexivity. Qed.

Lemma attempt_0 length r : attempt length r 0 = fst (generateShortCode length r).
Proof. unfold attempt. cbn [Nat.mul]. now rewrite skip_0. Qed.

Lemma attempt_S length r i :
  attempt length (skip length r) i = attempt length r (S i).
Proof. unfold attempt. rewrite skip_skip. reflexivity. Qed.

(** The loop with [fuel] iterations left, started at index [i] with the
    warnings [log]: either it returns at the first attempt [j] that does not
    exist, or all [fuel] attempts exist and it returns the longer code. *)
Lemma retry_spec length maxRetries checkExists : forall fuel i log r,
  (exists j, (j < fuel)%nat /\
     checkExists (attempt length r j) = false /\
     (forall j', (j' < j)%nat -> checkExists (attempt length r j') = true) /\
     retry length maxRetries checkExists fuel i log r =
     (attempt length r j,
      (log ++ map (fun k => mkWarning (attempt length r k) (i + k + 1) maxRetries) (seq 0 j))%list,
      skip (S j * length) r))
  \/
  ((forall j, (j < fuel)%nat -> checkExists (attempt length r j) = true) /\
   retry length maxRetries checkExists fuel i log r =
   (fst (generateShortCode (length + 2) (skip (fuel * length) r)),
    (log ++ map (fun k => mkWarning (attempt length r k) (i + k + 1) maxRetries) (seq 0 fuel))%list,
    skip (fuel * length + (length + 2)) r)).
Proof.
  induction fuel as [|fuel IH]; intros i log r.
  - right. split; [intros j Hj; lia|].
    cbn [retry Nat.mul Nat.add seq map]. rewrite skip_0, app_nil_r, <- generateShortCode_rng.
    now destruct (generateShortCode (length + 2) r).
  - cbn [retry].
    destruct (generateShortCode length r) as [code r'] eqn:Egen.
    assert (Hcode : code = attempt length r 0) by (rewrite attempt_0, Egen; reflexivity).
    assert (Hr' : r' = skip length r) by (rewrite <- generateShortCode_rng, Egen; reflexivity).
    destruct (checkExists code) eqn:Ex; cbn [negb].
    + subst r'.
      assert (Hshift : forall n,
        (mkWarning code (i + 1) maxRetries ::
         map (fun k => mkWarning (attempt length (skip length r) k) (S i + k + 1) maxRetries)
             (seq 0 n)) =
        map (fun k => mkWarning (attempt length r k) (i + k + 1) maxRetries) (seq 0 (S n))).
      { intros n. cbn [seq map]. rewrite Nat.add_0_r, <- Hcode. f_equal.
        rewrite <- seq_shift, map_map. apply map_ext. intros k.
        rewrite attempt_S. f_equal. lia. }
      destruct (IH (S i) (log ++ [mkWarning code (i + 1) maxRetries])%list (skip length r))
        as [(j & Hj & Hfresh & Hbefore & Hrun) | (Hall & Hrun)].
      * left. exists (S j). split; [lia|]. rewrite <- attempt_S. split; [exact Hfresh|].
        split.
        { intros [|j'] Hlt; [now rewrite <- Hcode | rewrite <- attempt_S; apply Hbefore; lia]. }
        rewrite Hrun, <- app_assoc, skip_skip. cbn [app]. rewrite Hshift.
        reflexivity.
      * right. split.
        { intros [|j'] Hlt; [now rewrite <- Hcode | rewrite <- attempt_S; apply Hall; lia]. }
        rewrite Hrun, <- app_assoc, !skip_skip. cbn [app]. rewrite Hshift.
        replace (length + (fuel * length + (length + 2)))%nat
          with (S fuel * length + (length + 2))%nat by (simpl; lia).
        reflexivity.
    + left. exists 0%nat. split; [lia|]. rewrite <- Hcode. split; [exact Ex|].
      split; [intros j' Hj'; lia|].
      subst r'. simpl. rewrite app_nil_r, Nat.add_0_r. reflexivity.
Qed.

(** C3.  Against a store whose existing codes are [S], with [checkExists]
    reporting membership in [S]: when one of the [maxRetries] attempts draws
    a code outside [S], the first such code is returned, after one warning
    per earlier collision, and it is not in [S]; when all [maxRetries]
    attempts collide, the code drawn next at [length + 2] is returned as it
    is, whether [S] holds it or not, and [checkExists] has been asked about
    the [maxRetries] colliding codes only.  The service runs this with
    length 6 and 5 retries. *)
Theorem generateUnique_fresh_or_longer
        (length maxRetries : nat) (S0 : list string) (checkExists : string -> bool) (r : Rng) :
  (forall code, checkExists code = true <-> In code S0) ->
  let result := generateUniqueShortCodeWith length maxRetries checkExists r in
  ((exists i, (i < maxRetries)%nat /\ ~ In (attempt length r i) S0) ->
   ~ In (fst (fst result)) S0 /\
   exists j, (j < maxRetries)%nat /\
     (forall j', (j' < j)%nat -> In (attempt length r j') S0) /\
     result = (attempt length r j, collisions length maxRetries r j, skip (S j * length) r))
  /\
  ((forall i, (i < maxRetries)%nat -> In (attempt length r i) S0) ->
   result = (fst (generateShortCode (length + 2) (skip (maxRetries * length) r)),
             collisions length maxRetries r maxRetries,
             skip (maxRetries * length + (length + 2)) r))
  /\
  generateUniqueShortCode checkExists r = generateUniqueShortCodeWith 6 5 checkExists r.
Proof.
  intros Hmem result.
  assert (Hfalse : forall code, checkExists code = false <-> ~ In code S0).
  { intros code. rewrite <- Hmem. destruct (checkExists code); intuition congruence. }
  destruct (retry_spec length maxRetries checkExists maxRetries 0 [] r)
    as [(j & Hj & Hfresh & Hbefore & Hrun) | (Hall & Hrun)];
    fold (generateUniqueShortCodeWith length maxRetries checkExists r) in Hrun;
    fold result in Hrun; cbn [app plus] in Hrun.
  - split; [|split; [|reflexivity]].
    + intros _. rewrite Hrun. cbn [fst]. split; [now apply Hfalse|].
      exists j. split; [exact Hj|]. split; [intros j' Hj'; apply Hmem; auto|].
      reflexivity.
    + intros Hall. exfalso. apply Hfalse in Hfresh. apply Hfresh, Hall, Hj.
  - split; [|split; [|reflexivity]].
    + intros (i & Hi & Hout). exfalso. apply Hout, Hmem, Hall, Hi.
    + intros _. exact Hrun.
Qed.

End ShortCodeFacts.

(** ** Numbers *)

Module NumberFacts.

Lemma two_53 : 2 ^ 53 = 9007199254740992.
Proof. reflexivity. Qed.

(** Adding 1 is exact from [- 2 ^ 53] up to [2 ^ 53 - 1]. *)
Lemma Number_add_1_exact (n : Z) : - 2 ^ 53 <= n < 2 ^ 53 -> Number_add n 1 = n + 1.
Proof.
  rewrite two_53. intros Hn. unfold Number_add, Number_round. rewrite two_53. cbv zeta.
  destruct (Z.leb_spec (Z.abs (n + 1)) 9007199254740992); [reflexivity | lia].
Qed.

(** At [2 ^ 53] the sum is a tie between [2 ^ 53] and [2 ^ 53 + 2], and
    goes to the former. *)
Lemma Number_add_1_at_2_53 : Number_add (2 ^ 53) 1 = 2 ^ 53.
Proof. reflexivity. Qed.

End NumberFacts.

(** ** [Url] documents *)

Module UrlFacts.

(** C8, as the code has it.  On a document whose history holds at most
    100 clicks and whose counter is within the range in which a Number
    adds 1 exactly, from [- 2 ^ 53] to [2 ^ 53 - 1], [recordClick] adds
    exactly 1 to [clicks] and appends exactly one entry
    [{timestamp, ip, userAgent, referer}]; a history of 100 first loses its
    oldest entry, so the history stays within 100; nothing else in the
    document changes. *)
Theorem recordClick_bounded_history (now : Z) (clickData : Url.ClickData) (this : Url.t) :
  (List.length (Url.clickHistory this) <= 100)%nat ->
  - 2 ^ 53 <= Url.clicks this < 2 ^ 53 ->
  let this' := Url.recordClick now clickData this in
  let entry := Url.mkClick now (Url.cd_ip clickData) (Url.cd_userAgent clickData)
                           (Url.cd_referer clickData) in
  Url.clicks this' = Url.clicks this + 1 /\
  ((List.length (Url.clickHistory this) < 100)%nat ->
     Url.clickHistory this' = (Url.clickHistory this ++ [entry])%list /\
     List.length (Url.clickHistory this') = S (List.length (Url.clickHistory this))) /\
  (List.length (Url.clickHistory this) = 100%nat ->
     Url.clickHistory this' = (tl (Url.clickHistory this) ++ [entry])%list /\
     List.length (Url.clickHistory this') = 100%nat) /\
  (List.length (Url.clickHistory this') <= 100)%nat /\
  Url.set_clicks (Url.clicks this) (Url.clickHistory this) this' = this.
Proof.
  intros Hlen Hsafe this' entry. subst this'. unfold Url.recordClick.
  cbn [Url.clicks Url.clickHistory Url.set_clicks].
  assert (Htl : forall A (l : list A), List.length (tl l) = Nat.pred (List.length l))
    by (intros A [|x l]; reflexivity).
  split; [exact (NumberFacts.Number_add_1_exact Hsafe)|].
  destruct (Nat.leb_spec 100 (List.length (Url.clickHistory this))) as [Hfull|Hroom].
  - assert (Heq : List.length (Url.clickHistory this) = 100%nat) by lia.
    split; [intros; lia|]. split.
    + intros _. split; [reflexivity|]. rewrite length_app, Htl, Heq. reflexivity.
    + split; [rewrite length_app, Htl, Heq; simpl; lia|]. now destruct this.
  - split.
    + intros _. split; [reflexivity|]. rewrite length_app. simpl. lia.
    + split; [intros; lia|]. split; [rewrite length_app; simpl; lia|]. now destruct this.
Qed.

End UrlFacts.

(** ** The service *)

Section ServiceFacts.
Context `{Platform}.


Lemma find_none_iff (q : Url.t -> bool) (docs : list Url.t) :
  find q docs = None <-> forall u, In u docs -> q u = false.
Proof.
  split; [apply find_none|].
  induction docs as [|d docs IH]; simpl; [reflexivity|]. intros Hall.
  rewrite (Hall d) by now left. apply IH. intros u Hu. apply Hall. now right.
Qed.

(** C10.  [recordClick] for a short code that no stored document has
    returns normally and leaves the whole state as it was. *)
Theorem recordClick_unknown_code_noop (shortCode : string) (clickData : Url.ClickData)
        (w : World) :
  (forall u, In u (db w) -> Url.shortCode u <> shortCode) ->
  recordClick shortCode clickData w = (inr tt, w).
Proof.
  intros Hnone. unfold recordClick, bind, findOne.
  replace (find (by_shortCode shortCode) (db w)) with (@None Url.t); [reflexivity|].
  symmetry. apply find_none_iff. intros u Hu. unfold by_shortCode.
  destruct (String.eqb_spec (Url.shortCode u) shortCode); [|reflexivity].
  exfalso. eapply Hnone; eauto.
Qed.

(** *** Updating and deleting *)

Lemma same_immutable_refl u : Url.same_immutable u u.
Proof. unfold Url.same_immutable. tauto. Qed.

Lemma same_immutable_trans a b c :
  Url.same_immutable a b -> Url.same_immutable b c -> Url.same_immutable a c.
Proof. unfold Url.same_immutable. intuition congruence. Qed.

Lemma assign_immutable key v st : Url.same_immutable (fst st) (fst (assign key v st)).
Proof.
  destruct st as [url err]. unfold assign.
  destruct (key =? "originalUrl")%string.
  { destruct (cast_originalUrl v) as [[s|]|]; simpl; unfold Url.same_immutable; simpl; tauto. }
  destruct (key =? "isActive")%string.
  { destruct (cast_isActive v) as [b|]; simpl; unfold Url.same_immutable; simpl; tauto. }
  destruct (key =? "expiresAt")%string.
  { destruct (cast_expiresAt v) as [t|]; simpl; unfold Url.same_immutable; simpl; tauto. }
  apply same_immutable_refl.
Qed.

Lemma applyUpdate_immutable st kv : Url.same_immutable (fst st) (fst (applyUpdate st kv)).
Proof.
  destruct kv as [key v]. unfold applyUpdate.
  destruct (includes allowedUpdates key); [|apply same_immutable_refl].
  destruct ((key =? "expiresAt")%string && negb (truthy v)).
  - simpl. unfold Url.same_immutable. simpl. tauto.
  - apply assign_immutable.
Qed.

Lemma fold_applyUpdate_immutable updates : forall st,
  Url.same_immutable (fst st) (fst (fold_left applyUpdate updates st)).
Proof.
  induction updates as [|kv updates IH]; intros st; simpl.
  - apply same_immutable_refl.
  - eapply same_immutable_trans; [apply applyUpdate_immutable | apply IH].
Qed.

Lemma oid_eqb_eq a b : oid_eqb a b = true <-> a = b.
Proof.
  destruct a as [x], b as [y]. simpl. rewrite Nat.eqb_eq.
  split; [now intros -> | now intros [= ->]].
Qed.

Lemma has_id_In u docs : In u docs -> has_id (Url._id u) docs = true.
Proof.
  intros Hin. unfold has_id. apply existsb_exists. exists u.
  split; [exact Hin | now apply oid_eqb_eq].
Qed.

Lemma map_other_ids u docs :
  ~ In (Url._id u) (map Url._id docs) ->
  map (fun d => if oid_eqb (Url._id d) (Url._id u) then u else d) docs = docs.
Proof.
  induction docs as [|d docs IH]; simpl; [reflexivity|]. intros Hnotin.
  destruct (oid_eqb (Url._id d) (Url._id u)) eqn:E.
  - exfalso. apply Hnotin. left. now apply oid_eqb_eq.
  - f_equal. apply IH. tauto.
Qed.

(** With one document per id, [updateOne] rewrites that document alone. *)
Lemma updateOne_map u docs :
  NoDup (map Url._id docs) ->
  updateOne u docs =
  map (fun d => if oid_eqb (Url._id d) (Url._id u) then u else d) docs.
Proof.
  induction docs as [|d docs IH]; simpl; [reflexivity|].
  intros ND. inversion ND as [|? ? Hnotin ND']; subst.
  destruct (oid_eqb (Url._id d) (Url._id u)) eqn:E.
  - f_equal. apply oid_eqb_eq in E. rewrite E in Hnotin.
    symmetry. now apply map_other_ids.
  - f_equal. now apply IH.
Qed.

Lemma by_shortCode_userId_true code uid u :
  by_shortCode_userId code uid u = true <->
  Url.shortCode u = code /\ Url.userId u = Some uid.
Proof.
  unfold by_shortCode_userId. rewrite andb_true_iff, String.eqb_eq.
  destruct (Url.userId u) as [x|]; simpl.
  - rewrite oid_eqb_eq. intuition congruence.
  - intuition congruence.
Qed.

(** What a successful [updateUrl] did. *)
Lemma updateUrl_inr code uid updates w resp w' :
  updateUrl code uid updates w = (inr resp, w') ->
  exists url url',
    find (by_shortCode_userId code uid) (db w) = Some url /\
    url' = fst (fold_left applyUpdate updates (url, false)) /\
    resp = formatUrlResponse url' /\
    w' = with_urlCache (with_db w (updateOne url' (db w)))
                       (UrlCache.invalidate code (urlCache w)).
Proof.
  unfold updateUrl, bind, findOne.
  destruct (find (by_shortCode_userId code uid) (db w)) as [url|] eqn:Efind;
    [|discriminate].
  destruct (fold_left applyUpdate updates (url, false)) as [url' err] eqn:Efold.
  pose proof (fold_applyUpdate_immutable updates (url, false)) as Himm.
  rewrite Efold in Himm. cbn [fst] in Himm.
  destruct (find_some _ _ Efind) as [Hin Hq].
  apply by_shortCode_userId_true in Hq. destruct Hq as [Hcode _].
  unfold save. destruct (err || negb (Url.validate url')); [discriminate|].
  replace (Url._id url') with (Url._id url) by apply Himm.
  rewrite (has_id_In _ _ Hin).
  unfold urlCache_invalidate, ret. cbn [db urlCache with_db with_urlCache].
  intros E. injection E as <- <-.
  exists url, url'. split; [reflexivity|]. split; [now rewrite Efold|].
  split; [reflexivity|].
  replace (Url.shortCode url') with code by (rewrite <- Hcode; apply Himm).
  reflexivity.
Qed.

Lemma by_shortCode_guestId_true code gid u :
  by_shortCode_guestId code gid u = true -> Url.shortCode u = code.
Proof.
  unfold by_shortCode_guestId. rewrite andb_true_iff, String.eqb_eq. tauto.
Qed.

(** What a successful [deleteUrl] did. *)
Lemma deleteUrl_inr code uid w msg w' :
  deleteUrl code uid w = (inr msg, w') ->
  exists url,
    find (by_shortCode_userId code uid) (db w) = Some url /\
    w' = with_urlCache (with_db w (deleteFirst (by_shortCode_userId code uid) (db w)))
                       (UrlCache.invalidate code (urlCache w)).
Proof.
  unfold deleteUrl, bind, findOneAndDelete.
  destruct (find (by_shortCode_userId code uid) (db w)) as [url|] eqn:Efind;
    [|discriminate].
  destruct (find_some _ _ Efind) as [_ Hq].
  apply by_shortCode_userId_true in Hq. destruct Hq as [-> _].
  unfold urlCache_invalidate, ret. cbn [db urlCache with_db with_urlCache].
  intros E. injection E as <- <-. now exists url.
Qed.

Lemma deleteGuestUrl_inr code gid w msg w' :
  deleteGuestUrl code gid w = (inr msg, w') ->
  exists url,
    find (by_shortCode_guestId code gid) (db w) = Some url /\
    w' = with_urlCache (with_db w (deleteFirst (by_shortCode_guestId code gid) (db w)))
                       (UrlCache.invalidate code (urlCache w)).
Proof.
  unfold deleteGuestUrl, bind, findOneAndDelete.
  destruct (find (by_shortCode_guestId code gid) (db w)) as [url|] eqn:Efind;
    [|discriminate].
  destruct (find_some _ _ Efind) as [_ Hq].
  apply by_shortCode_guestId_true in Hq. subst code.
  unfold urlCache_invalidate, ret. cbn [db urlCache with_db with_urlCache].
  intros E. injection E as <- <-. now exists url.
Qed.

(** After [invalidate], [get] finds nothing under the code, at any instant. *)
Lemma get_after_invalidate (code : string) (c : UrlCache.t UrlData) :
  JsMap.get code (UrlCache.cache (UrlCache.invalidate code c)) = None /\
  forall now, UrlCache.get now code (UrlCache.invalidate code c)
              = (None, UrlCache.invalidate code c).
Proof.
  assert (E : JsMap.get code (UrlCache.cache (UrlCache.invalidate code c)) = None)
    by apply JsMapFacts.get_delete_same.
  split; [exact E|]. intros now. unfold UrlCache.get. now rewrite E.
Qed.

(** C4.  When [updateUrl], [deleteUrl] or [deleteGuestUrl] returns, the
    cache holds no entry for the short code, so a [get] for it, at any later
    instant, returns nothing: not the target cached before the change. *)
Theorem mutation_invalidates_cache (code : string) :
  (forall uid updates w resp w',
      updateUrl code uid updates w = (inr resp, w') ->
      JsMap.get code (UrlCache.cache (urlCache w')) = None /\
      forall now, fst (UrlCache.get now code (urlCache w')) = None)
  /\
  (forall uid w msg w',
      deleteUrl code uid w = (inr msg, w') ->
      JsMap.get code (UrlCache.cache (urlCache w')) = None /\
      forall now, fst (UrlCache.get now code (urlCache w')) = None)
  /\
  (forall gid w msg w',
      deleteGuestUrl code gid w = (inr msg, w') ->
      JsMap.get code (UrlCache.cache (urlCache w')) = None /\
      forall now, fst (UrlCache.get now code (urlCache w')) = None).
Proof.
  split; [|split].
  - intros uid updates w resp w' Hrun.
    destruct (updateUrl_inr _ _ _ _ Hrun) as (url & url' & _ & _ & _ & ->).
    cbn [urlCache with_urlCache].
    destruct (get_after_invalidate code (urlCache w)) as [E1 E2].
    split; [exact E1 | intros now; now rewrite E2].
  - intros uid w msg w' Hrun.
    destruct (deleteUrl_inr _ _ _ Hrun) as (url & _ & ->).
    cbn [urlCache with_urlCache].
    destruct (get_after_invalidate code (urlCache w)) as [E1 E2].
    split; [exact E1 | intros now; now rewrite E2].
  - intros gid w msg w' Hrun.
    destruct (deleteGuestUrl_inr _ _ _ Hrun) as (url & _ & ->).
    cbn [urlCache with_urlCache].
    destruct (get_after_invalidate code (urlCache w)) as [E1 E2].
    split; [exact E1 | intros now; now rewrite E2].
Qed.

(** C9.  A successful [updateUrl] rewrites one document, the one found
    under [(shortCode, userId)]: its id, short code, custom slug, owner,
    clicks, click history, QR code and creation stamp are what they were,
    and with one document per id every other document is untouched; the
    rest of the state changes only by the invalidated cache entry.  When no
    document has both the short code and the owner (the code may be
    another owner's), the call throws the 404 [notFound] error and changes
    nothing. *)
Theorem updateUrl_frame (code : string) (uid : ObjectId) (updates : list (string * Value))
        (w : World) :
  (forall resp w',
      updateUrl code uid updates w = (inr resp, w') ->
      exists url url',
        find (by_shortCode_userId code uid) (db w) = Some url /\
        Url.shortCode url = code /\ Url.userId url = Some uid /\
        Url.same_immutable url url' /\
        resp = formatUrlResponse url' /\
        w' = with_urlCache (with_db w (updateOne url' (db w)))
                           (UrlCache.invalidate code (urlCache w)) /\
        (NoDup (map Url._id (db w)) ->
         db w' = map (fun d => if oid_eqb (Url._id d) (Url._id url) then url' else d) (db w)))
  /\
  ((forall u, In u (db w) -> ~ (Url.shortCode u = code /\ Url.userId u = Some uid)) ->
   updateUrl code uid updates w =
   (inl (ThrowApp (AppError.notFound "URL not found or access denied")), w))
  /\
  ((forall u, In u (db w) -> Url.shortCode u = code -> Url.userId u <> Some uid) ->
   updateUrl code uid updates w =
   (inl (ThrowApp (AppError.notFound "URL not found or access denied")), w)).
Proof.
  assert (Hnone : (forall u, In u (db w) ->
                     ~ (Url.shortCode u = code /\ Url.userId u = Some uid)) ->
                  updateUrl code uid updates w =
                  (inl (ThrowApp (AppError.notFound "URL not found or access denied")), w)).
  { intros Hno. unfold updateUrl, bind, findOne.
    replace (find (by_shortCode_userId code uid) (db w)) with (@None Url.t); [reflexivity|].
    symmetry. apply find_none_iff. intros u Hu.
    destruct (by_shortCode_userId code uid u) eqn:E; [|reflexivity].
    apply by_shortCode_userId_true in E. exfalso. exact (Hno u Hu E). }
  split; [|split; [exact Hnone|]].
  - intros resp w' Hrun.
    destruct (updateUrl_inr _ _ _ _ Hrun) as (url & url' & Efind & Eurl' & -> & ->).
    destruct (find_some _ _ Efind) as [Hin Hq].
    apply by_shortCode_userId_true in Hq. destruct Hq as [Hcode Huid].
    assert (Himm : Url.same_immutable url url').
    { rewrite Eurl'. apply (fold_applyUpdate_immutable updates (url, false)). }
    exists url, url'. repeat split; try assumption; try apply Himm.
    intros ND. cbn [db with_db with_urlCache].
    rewrite updateOne_map by exact ND.
    replace (Url._id url') with (Url._id url) by apply Himm. reflexivity.
  - intros Hother. apply Hnone. intros u Hu [Hc Ho]. exact (Hother u Hu Hc Ho).
Qed.

(** *** Creating *)


Lemma determineExpiration_run p w :
  determineExpiration p w =
  (inr (if truthy_str (p_guestId p) && negb (is_some (p_userId p)) then
          CastOk (Some (Date_plusDays GUEST_URL_EXPIRY_DAYS (clock w)))
        else if is_some (p_userId p) && truthy (p_expiresAt p) then
          match Date_new (p_expiresAt p) with
          | Some t => CastOk (Some t)
          | None => CastError
          end
        else CastOk None), w).
Proof.
  unfold determineExpiration.
  destruct (truthy_str (p_guestId p) && negb (is_some (p_userId p))); [reflexivity|].
  now destruct (is_some (p_userId p) && truthy (p_expiresAt p)).
Qed.






(** *** Resolving *)

Lemma urlCache_get_miss code w :
  JsMap.get code (UrlCache.cache (urlCache w)) = None ->
  urlCache_get code w = (inr None, w).
Proof.
  intros Hmiss. unfold urlCache_get, UrlCache.get. rewrite Hmiss. now destruct w.
Qed.

(** A code that is not cached and has no active document: the 404
    [notFound] error, and nothing changes. *)
Lemma getByShortCode_absent code w :
  JsMap.get code (UrlCache.cache (urlCache w)) = None ->
  find (by_shortCode_active code) (db w) = None ->
  getByShortCode code w = (inl (ThrowApp (AppError.notFound "URL not found")), w).
Proof.
  intros Hmiss Hfind. unfold getByShortCode, bind.
  rewrite (urlCache_get_miss _ _ Hmiss). unfold findByShortCode, findOne.
  now rewrite Hfind.
Qed.

(** A cache hit is returned as it is: while the entry has not outlived its
    TTL, [getByShortCode] returns its data and reads neither the
    collection nor any [expiresAt] of the document. *)
Lemma getByShortCode_cache_hit code w e :
  JsMap.get code (UrlCache.cache (urlCache w)) = Some e ->
  clock w <= UrlCache.expiresAt e ->
  fst (getByShortCode code w) = inr (UrlCache.data e) /\
  db (snd (getByShortCode code w)) = db w.
Proof.
  intros Hhit Hlive. unfold getByShortCode, bind, urlCache_get, UrlCache.get.
  rewrite Hhit. destruct (Z.gtb_spec (clock w) (UrlCache.expiresAt e)); [lia|].
  split; reflexivity.
Qed.

(** C2, as the code has it.  For a code that is not cached and whose
    active document has an [expiresAt] in the past, [getByShortCode] throws
    [notFound("URL has expired")] and leaves the document in the collection;
    [redirectUrl] hands that error to [next].  The error has the status 404
    and the code NOT_FOUND of the error thrown for an unknown short code:
    the two differ in their message only. *)
Theorem getByShortCode_expired_is_notFound (code : string) (w : World) (url : Url.t) (t : Z) :
  JsMap.get code (UrlCache.cache (urlCache w)) = None ->
  find (by_shortCode_active code) (db w) = Some url ->
  Url.expiresAt url = Some t ->
  t < clock w ->
  getByShortCode code w = (inl (ThrowApp (AppError.notFound "URL has expired")), w) /\
  (forall req, params_shortCode req = code ->
     redirectUrl req w = (Next (ThrowApp (AppError.notFound "URL has expired")), w)) /\
  AppError.kind (AppError.notFound "URL has expired") = (404, "NOT_FOUND") /\
  AppError.kind (AppError.notFound "URL has expired")
  = AppError.kind (AppError.notFound "URL not found") /\
  AppError.message (AppError.notFound "URL has expired")
  <> AppError.message (AppError.notFound "URL not found").
Proof.
  intros Hmiss Hfind Hexp Hpast.
  assert (Hrun : getByShortCode code w
                 = (inl (ThrowApp (AppError.notFound "URL has expired")), w)).
  { unfold getByShortCode, bind.
    rewrite (urlCache_get_miss _ _ Hmiss). unfold findByShortCode, findOne.
    rewrite Hfind. unfold Date_now. rewrite Hexp.
    destruct (Z.ltb_spec t (clock w)); [reflexivity | lia]. }
  split; [exact Hrun|]. split.
  - intros req <-. unfold redirectUrl, redirectUrl_try, bind. now rewrite Hrun.
  - repeat split. discriminate.
Qed.

End ServiceFacts.

Lemma includes_In (l : list string) (key : string) : includes l key = true <-> In key l.
Proof.
  unfold includes. rewrite existsb_exists. split.
  - intros (k & Hin & E). apply String.eqb_eq in E. now subst.
  - intros Hin. exists key. split; [exact Hin | apply String.eqb_refl].
Qed.

(** ** The theorems at concrete states *)

Module Scenarios.
Import Sample.

(** C1 on the code.  A link with a ten-minute life is resolved once at
    instant 0 and cached for an hour.  Twenty minutes later its document is
    still stored with [expiresAt] in the past, and both [getByShortCode]
    and [redirectUrl] answer from the cache with the original URL. *)
Lemma expired_link_served_from_cache :
  option_map Url.expiresAt (find (by_shortCode_active "promo") (db twenty_minutes_later))
  = Some (Some 600000) /\
  600000 < clock twenty_minutes_later /\
  fst (getByShortCode "promo" twenty_minutes_later)
  = inr (mkUrlData "https://example.com" "promo" (Oid 1)) /\
  fst (redirectUrl (request "promo") twenty_minutes_later)
  = Redirect 301 "https://example.com".
Proof. vm_compute. repeat split. Qed.

(** C2 as stated fails.  A stored, active, uncached link that expired one
    second ago: the error [getByShortCode] throws has the kind of the
    error it throws for an unknown code. *)
Lemma expired_error_has_the_notFound_kind :
  let w := world [promo (Some 999000)] 1000000 in
  JsMap.get "promo" (UrlCache.cache (urlCache w)) = None /\
  find (by_shortCode_active "promo") (db w) = Some (promo (Some 999000)) /\
  fst (getByShortCode "nowhere" w) = inl (ThrowApp (AppError.notFound "URL not found")) /\
  ~ (exists e, fst (getByShortCode "promo" w) = inl (ThrowApp e) /\
               AppError.kind e <> AppError.kind (AppError.notFound "URL not found")).
Proof.
  cbv zeta. split; [reflexivity|]. split; [reflexivity|]. split; [reflexivity|].
  intros (e & Hrun & Hkind). vm_compute in Hrun. injection Hrun as <-.
  apply Hkind. reflexivity.
Qed.

Lemma getByShortCode_expired_is_notFound_witness :
  let w := world [promo (Some 999000)] 1000000 in
  getByShortCode "promo" w = (inl (ThrowApp (AppError.notFound "URL has expired")), w) /\
  redirectUrl (request "promo") w = (Next (ThrowApp (AppError.notFound "URL has expired")), w).
Proof.
  cbv zeta.
  destruct (getByShortCode_expired_is_notFound "promo"
              (world [promo (Some 999000)] 1000000) (url := promo (Some 999000)) (t := 999000)
              eq_refl eq_refl eq_refl eq_refl) as (Hrun & Hredirect & _).
  split; [exact Hrun | exact (Hredirect (request "promo") eq_refl)].
Defined.

Lemma generateUnique_fresh_or_longer_witness :
  ~ In (fst (fst (ShortCode.generateUniqueShortCodeWith 6 5 (includes ["aaaaaa"])
                                                         zeros_then_ones)))
       ["aaaaaa"] /\
  ShortCode.generateUniqueShortCodeWith 6 5 (includes ["aaaaaa"; "aaaaaaaa"]) zeros
  = ("aaaaaaaa", ShortCode.collisions 6 5 zeros 5, ShortCode.skip 38 zeros) /\
  In "aaaaaaaa" ["aaaaaa"; "aaaaaaaa"].
Proof.
  split; [|split].
  - refine (proj1 (proj1 (ShortCodeFacts.generateUnique_fresh_or_longer 6 5 ["aaaaaa"]
             (includes ["aaaaaa"]) zeros_then_ones (includes_In ["aaaaaa"])) _)).
    exists 1%nat. split; [lia|]. intros [E|[]]. discriminate E.
  - refine (proj1 (proj2 (ShortCodeFacts.generateUnique_fresh_or_longer 6 5
             ["aaaaaa"; "aaaaaaaa"] (includes ["aaaaaa"; "aaaaaaaa"]) zeros
             (includes_In ["aaaaaa"; "aaaaaaaa"]))) _).
    intros i Hi. do 5 (destruct i as [|i]; [left; reflexivity|]). lia.
  - right. left. reflexivity.
Defined.

Lemma mutation_invalidates_cache_witness :
  fst (UrlCache.get 1 "promo" (urlCache after_first_visit))
  = Some (mkUrlData "https://example.com" "promo" (Oid 1)) /\
  (forall now,
     fst (UrlCache.get now "promo"
            (urlCache (snd (updateUrl "promo" alice [("originalUrl", VStr "https://new.example")]
                                      after_first_visit)))) = None) /\
  (forall now,
     fst (UrlCache.get now "promo" (urlCache (snd (deleteUrl "promo" alice after_first_visit))))
     = None).
Proof.
  destruct (mutation_invalidates_cache (H := platform) "promo") as (Hupdate & Hdelete & _).
  split; [reflexivity|]. split; intros now.
  - destruct (updateUrl "promo" alice [("originalUrl", VStr "https://new.example")]
                        after_first_visit) as [[e|resp] w'] eqn:E.
    + vm_compute in E. discriminate E.
    + exact (proj2 (Hupdate _ _ _ _ _ E) now).
  - destruct (deleteUrl "promo" alice after_first_visit) as [[e|msg] w'] eqn:E.
    + vm_compute in E. discriminate E.
    + exact (proj2 (Hdelete _ _ _ _ E) now).
Defined.

Lemma set_evicts_least_recently_used_witness :
  JsMap.size (UrlCache.cache
                (UrlCache.setAll [(1, "a", 10%nat); (2, "b", 20%nat); (3, "c", 30%nat)]
                                 (UrlCache.create nat 2 100))) = 2%nat /\
  exists k e,
    In (k, e) (UrlCache.cache full_cache) /\
    (forall k' e', In (k', e') (UrlCache.cache full_cache) ->
                   UrlCache.lastAccess e <= UrlCache.lastAccess e') /\
    (forall h, option_map fst (UrlCache.scan (UrlCache.rehit h (UrlCache.cache full_cache)))
               = Some k) /\
    S (JsMap.size (JsMap.delete k (UrlCache.cache full_cache)))
    = JsMap.size (UrlCache.cache full_cache) /\
    UrlCache.set 7 "c" 30%nat full_cache =
    UrlCache.with_cache full_cache
      (JsMap.set "c" (UrlCache.mkEntry 30%nat (7 + UrlCache.ttl full_cache) 1 7)
                 (JsMap.delete k (UrlCache.cache full_cache))).
Proof.
  destruct (@UrlCacheSpec.set_evicts_least_recently_used nat 2 100 Nat.lt_0_2)
    as [Hfill Hevict].
  split.
  - apply Hfill; [|intros k Hk|reflexivity].
    + repeat constructor; simpl; intuition discriminate.
    + simpl in Hk. intuition (subst; discriminate).
  - apply Hevict; [reflexivity| |intros k Hk|simpl; lia].
    + unfold UrlCache.wf. repeat constructor; simpl; intuition discriminate.
    + simpl in Hk. intuition (subst; discriminate).
Defined.

(** Outside the hypotheses of C5, neither of which a short code of the
    service or the configured capacity meets: a cache of capacity 0 keeps
    the entry it is given, and an empty key that is the least recently used
    is not deleted, [if (oldestKey)] being false on it. *)
Lemma capacity_zero_keeps_an_entry :
  JsMap.size (UrlCache.cache (UrlCache.set 1 "a" 10%nat (UrlCache.create nat 0 100))) = 1%nat.
Proof. reflexivity. Qed.

Lemma empty_key_is_not_evicted :
  JsMap.keys (UrlCache.cache
                (UrlCache.set 2 "a" 20%nat
                   (UrlCache.set 1 "" 10%nat (UrlCache.create nat 1 100))))
  = [""; "a"].
Proof. reflexivity. Qed.

Lemma get_honours_ttl_witness :
  let c1 := UrlCache.set 0 "a" 10%nat (UrlCache.create nat 2 100) in
  (fst (UrlCache.get 101 "a" c1) = None /\
   JsMap.get "a" (UrlCache.cache (snd (UrlCache.get 101 "a" c1))) = None) /\
  (fst (UrlCache.get 100 "a" c1) = Some 10%nat /\
   JsMap.get "a" (UrlCache.cache (snd (UrlCache.get 100 "a" c1)))
   = Some (UrlCache.mkEntry 10%nat 100 2 100)).
Proof.
  destruct (UrlCacheSpec.get_honours_ttl (UrlCache.create nat 2 100) 0 "a" 10%nat)
    as (_ & Hexpired & Hlive & _).
  split; [apply Hexpired; reflexivity | apply Hlive; discriminate].
Defined.


(** C8 as stated fails.  [clicks] is a Number: on a document whose counter
    has reached [2 ^ 53], with an empty history, [recordClick] leaves the
    counter where it is. *)
Lemma recordClick_stops_counting_at_2_53 :
  let this := Url.set_clicks (2 ^ 53) [] (promo None) in
  (List.length (Url.clickHistory this) <= 100)%nat /\
  Url.clicks (Url.recordClick 50 click this) = Url.clicks this /\
  Url.clicks (Url.recordClick 50 click this) <> Url.clicks this + 1.
Proof.
  cbv zeta. split; [simpl; lia|]. split; [reflexivity|].
  vm_compute. discriminate.
Qed.

Lemma recordClick_bounded_history_witness :
  let first := Url.mkClick 1 None None None in
  let busy := Url.set_clicks 100 (first :: repeat (Url.mkClick 2 None None None) 99)
                             (promo None) in
  let entry := Url.mkClick 50 (Some "10.0.0.1") (Some "curl/8") (Some "https://ref.example") in
  (Url.clicks (Url.recordClick 50 click (promo None)) = 1 /\
   Url.clickHistory (Url.recordClick 50 click (promo None)) = [entry]) /\
  (Url.clicks (Url.recordClick 50 click busy) = 101 /\
   Url.clickHistory (Url.recordClick 50 click busy)
   = (repeat (Url.mkClick 2 None None None) 99 ++ [entry])%list /\
   List.length (Url.clickHistory (Url.recordClick 50 click busy)) = 100%nat).
Proof.
  cbv zeta. split.
  - destruct (UrlFacts.recordClick_bounded_history 50 click (promo None))
      as (Hclicks & Hroom & _); [simpl; lia | simpl; lia |].
    split; [exact Hclicks | apply Hroom; simpl; lia].
  - destruct (UrlFacts.recordClick_bounded_history 50 click
                (Url.set_clicks 100 (Url.mkClick 1 None None None
                                       :: repeat (Url.mkClick 2 None None None) 99)
                                (promo None)))
      as (Hclicks & _ & Hfull & _); [apply Nat.eq_le_incl; reflexivity | simpl; lia |].
    split; [exact Hclicks|]. apply Hfull. reflexivity.
Defined.

Lemma updateUrl_frame_witness :
  let theirs := Url.mkUrl (Oid 7) "https://example.org" "other" None (Some bob) None
                          3 [] (Some true) None None 0 in
  let w := world [promo (Some 5); theirs] 1000 in
  let updates := [("originalUrl", VStr "https://new.example"); ("expiresAt", VStr "");
                  ("shortCode", VStr "hijack"); ("clicks", VNum 1000)] in
  (exists resp w' url url',
      updateUrl "promo" alice updates w = (inr resp, w') /\
      find (by_shortCode_userId "promo" alice) (db w) = Some url /\
      Url.same_immutable url url' /\
      db w' = map (fun d => if oid_eqb (Url._id d) (Url._id url) then url' else d) (db w)) /\
  updateUrl "promo" bob updates w
  = (inl (ThrowApp (AppError.notFound "URL not found or access denied")), w) /\
  updateUrl "nowhere" alice updates w
  = (inl (ThrowApp (AppError.notFound "URL not found or access denied")), w).
Proof.
  cbv zeta. split; [|split].
  - destruct (updateUrl "promo" alice _ _) as [[e|resp] w'] eqn:E.
    + vm_compute in E. discriminate E.
    + destruct (proj1 (updateUrl_frame (H := platform) _ _ _ _) _ _ E)
        as (url & url' & Hfind & _ & _ & Himm & _ & _ & Hdb).
      exists resp, w', url, url'. split; [reflexivity|]. split; [exact Hfind|].
      split; [exact Himm|]. apply Hdb.
      repeat constructor; simpl; intuition discriminate.
  - apply (proj2 (proj2 (updateUrl_frame (H := platform) "promo" bob _ _))).
    intros u [<-|[<-|[]]] Hcode; simpl; discriminate.
  - apply (proj1 (proj2 (updateUrl_frame (H := platform) "nowhere" alice _ _))).
    intros u [<-|[<-|[]]] [Hcode _]; discriminate Hcode.
Defined.

Lemma recordClick_unknown_code_noop_witness :
  recordClick "nowhere" click (world [promo None] 5) = (inr tt, world [promo None] 5).
Proof.
  apply recordClick_unknown_code_noop.
  intros u [<-|[]]. discriminate.
Defined.

End Scenarios.

(** * Further facts *)

From Stdlib Require Import NArith.

(** ** [ShortCode], continued *)

Module ShortCodeMore.
Import ShortCode.

Lemma alphabet_at_check (b : byte) :
  match alphabet_at b with
  | String c EmptyString => slug_char c && in_alphabet c
  | _ => false
  end = true.
Proof. destruct b; vm_compute; reflexivity. Qed.

Lemma alphabet_at_char (b : byte) :
  exists c, alphabet_at b = String c "" /\ slug_char c = true /\
            In c (list_ascii_of_string ALPHABET).
Proof.
  pose proof (alphabet_at_check b) as Hc.
  destruct (alphabet_at b) as [|c [|c' s]]; try discriminate.
  apply andb_true_iff in Hc. destruct Hc as [Hslug Hin].
  exists c. split; [reflexivity|]. split; [exact Hslug|].
  apply existsb_exists in Hin. destruct Hin as (x & Hx & E).
  apply Ascii.eqb_eq in E. now subst.
Qed.

Lemma append_nil_r (s : string) : (s ++ "")%string = s.
Proof. induction s as [|c s IH]; simpl; [reflexivity | now rewrite IH]. Qed.

Lemma append_assoc (a b c : string) : ((a ++ b) ++ c)%string = (a ++ (b ++ c))%string.
Proof. induction a as [|x a IH]; simpl; [reflexivity | now rewrite IH]. Qed.

Lemma encode_fold (bytes : list byte) : forall acc,
  fold_left (fun code b => code ++ alphabet_at b)%string bytes acc
  = (acc ++ fold_left (fun code b => code ++ alphabet_at b)%string bytes "")%string.
Proof.
  induction bytes as [|b bytes IH]; intros acc; simpl.
  - now rewrite append_nil_r.
  - rewrite IH, (IH (alphabet_at b)). now rewrite append_assoc.
Qed.

Lemma encode_cons (b : byte) (bytes : list byte) :
  encode (b :: bytes) = (alphabet_at b ++ encode bytes)%string.
Proof. unfold encode. simpl. apply encode_fold. Qed.

Lemma encode_chars (bytes : list byte) :
  String.length (encode bytes) = List.length bytes /\
  forall c, In c (list_ascii_of_string (encode bytes)) ->
            slug_char c = true /\ In c (list_ascii_of_string ALPHABET).
Proof.
  induction bytes as [|b bytes [IHlen IHin]].
  - split; [reflexivity | intros c []].
  - rewrite encode_cons.
    destruct (alphabet_at_char b) as (c0 & -> & Hslug & Hin0). simpl. split.
    + now rewrite IHlen.
    + intros c [<-|Hc]; [tauto | auto].
Qed.

Lemma length_randomBytes (n : nat) (r : Rng) : List.length (fst (randomBytes n r)) = n.
Proof. unfold randomBytes. simpl. now rewrite length_map, length_seq. Qed.

Lemma generateShortCode_chars (length : nat) (r : Rng) :
  String.length (fst (generateShortCode length r)) = length /\
  (forall c, In c (list_ascii_of_string (fst (generateShortCode length r))) ->
             In c (list_ascii_of_string ALPHABET)).
Proof.
  unfold generateShortCode.
  destruct (randomBytes length r) as [bytes r'] eqn:E. cbn [fst].
  destruct (encode_chars bytes) as [Hlen Hin].
  split.
  - rewrite Hlen. replace bytes with (fst (randomBytes length r)) by now rewrite E.
    apply length_randomBytes.
  - intros c Hc. now apply Hin.
Qed.

(** X1.  Whatever the random bytes are, [generateShortCode(length)] returns
    exactly [length] characters, each one a character of the 62-letter
    alphabet, and uses up exactly [length] bytes. *)
Theorem generateShortCode_shape (length : nat) (r : Rng) :
  String.length (fst (generateShortCode length r)) = length /\
  (forall c, In c (list_ascii_of_string (fst (generateShortCode length r))) ->
             In c (list_ascii_of_string ALPHABET)) /\
  snd (generateShortCode length r) = skip length r.
Proof.
  destruct (generateShortCode_chars length r) as [Hlen Hin].
  split; [exact Hlen|]. split; [exact Hin|].
  unfold generateShortCode.
  destruct (randomBytes length r) as [bytes r'] eqn:E. cbn [snd].
  unfold randomBytes in E. now injection E as _ <-.
Qed.

Lemma forallb_slug_chars (s : string) :
  (forall c, In c (list_ascii_of_string s) -> slug_char c = true) ->
  forallb slug_char (list_ascii_of_string s) = true.
Proof. intros Hall. now apply forallb_forall. Qed.

Lemma generateShortCode_valid (length : nat) (r : Rng) :
  (3 <= length <= 50)%nat -> isValidSlug (fst (generateShortCode length r)) = true.
Proof.
  intros Hlen. unfold generateShortCode.
  destruct (randomBytes length r) as [bytes r'] eqn:E. cbn [fst].
  destruct (encode_chars bytes) as [Hl Hin].
  assert (Hb : List.length bytes = length).
  { replace bytes with (fst (randomBytes length r)) by now rewrite E.
    apply length_randomBytes. }
  unfold isValidSlug, slugRegex_test. rewrite Hl, Hb.
  assert (Hall : forallb slug_char (list_ascii_of_string (encode bytes)) = true).
  { apply forallb_slug_chars. intros c Hc. now apply Hin. }
  destruct (list_ascii_of_string (encode bytes)) as [|c cs] eqn:Ecs.
  - exfalso. assert (Hz : String.length (encode bytes) = 0%nat).
    { rewrite <- (string_of_list_ascii_of_string (encode bytes)), Ecs. reflexivity. }
    lia.
  - rewrite Hall, (proj2 (Nat.leb_le 3 length)), (proj2 (Nat.leb_le length 50)) by lia.
    reflexivity.
Qed.

(** X2.  The code [generateUniqueShortCode] returns, whatever the existence
    check answers and whatever the random bytes are, has 6 characters, or 8
    after five collisions, all from the alphabet, and is a slug that
    [isValidSlug] accepts: generated codes live among the custom slugs. *)
Theorem generateUnique_is_valid_slug (checkExists : string -> bool) (r : Rng) :
  let code := fst (fst (generateUniqueShortCode checkExists r)) in
  (String.length code = 6%nat \/ String.length code = 8%nat) /\
  (forall c, In c (list_ascii_of_string code) -> In c (list_ascii_of_string ALPHABET)) /\
  isValidSlug code = true.
Proof.
  cbv zeta. unfold generateUniqueShortCode, generateUniqueShortCodeWith.
  destruct (ShortCodeFacts.retry_spec config.shortCode_length config.shortCode_maxRetries
              checkExists config.shortCode_maxRetries 0 [] r)
    as [(j & _ & _ & _ & ->) | (_ & ->)]; cbn [fst]; unfold attempt.
  - destruct (generateShortCode_chars config.shortCode_length
                (skip (j * config.shortCode_length) r)) as (Hlen & Hin).
    split; [left; exact Hlen|]. split; [exact Hin|].
    apply generateShortCode_valid. unfold config.shortCode_length. lia.
  - destruct (generateShortCode_chars (config.shortCode_length + 2)
                (skip (config.shortCode_maxRetries * config.shortCode_length) r))
      as (Hlen & Hin).
    split; [right; exact Hlen|]. split; [exact Hin|].
    apply generateShortCode_valid. unfold config.shortCode_length. lia.
Qed.

Lemma all_bytes_complete (b : byte) : In b all_bytes.
Proof.
  assert (Hb : existsb (Byte.eqb b) all_bytes = true)
    by (destruct b; vm_compute; reflexivity).
  apply existsb_exists in Hb. destruct Hb as (x & Hx & E).
  apply Byte.byte_dec_bl in E. now subst.
Qed.

(** X3.  The byte-to-letter map is not uniform: of the 256 byte values, 5
    are mapped to each of the first 8 letters ("a" to "h") and 4 to each of
    the other 54. *)
Theorem alphabet_modulo_bias (i : nat) :
  (i < 62)%nat ->
  List.length all_bytes = 256%nat /\
  (forall b, In b all_bytes) /\
  List.length (filter (fun b => (alphabet_index b =? N.of_nat i)%N) all_bytes)
  = (if (i <? 8)%nat then 5 else 4)%nat /\
  forall b, alphabet_index b = N.of_nat i ->
            Some (alphabet_at b) = option_map (fun c => String c "") (String.get i ALPHABET).
Proof.
  intros Hi. split; [reflexivity|]. split; [exact all_bytes_complete|]. split.
  - do 62 (destruct i as [|i]; [vm_compute; reflexivity|]). lia.
  - intros b Hb. unfold alphabet_at. fold (alphabet_index b). rewrite Hb, Nat2N.id.
    destruct (String.get i ALPHABET) as [c|] eqn:E; [reflexivity|].
    exfalso. revert E. do 62 (destruct i as [|i]; [vm_compute; discriminate|]). lia.
Qed.

Lemma concat_empty_cons (x : string) (l : list string) :
  String.concat "" (x :: l) = (x ++ String.concat "" l)%string.
Proof.
  destruct l as [|y l]; simpl; [now rewrite append_nil_r | reflexivity].
Qed.

Lemma parse_hex_byte (b : byte) (rest : string) :
  parse_hex (hex_of_byte b ++ rest) = b :: parse_hex rest.
Proof. destruct b; reflexivity. Qed.

Lemma parse_toString_hex (bytes : list byte) : parse_hex (toString_hex bytes) = bytes.
Proof.
  unfold toString_hex. induction bytes as [|b bytes IH]; [reflexivity|].
  cbn [map]. rewrite concat_empty_cons, parse_hex_byte. now f_equal.
Qed.

Lemma length_toString_hex (bytes : list byte) :
  String.length (toString_hex bytes) = (2 * List.length bytes)%nat.
Proof.
  unfold toString_hex. induction bytes as [|b bytes IH]; [reflexivity|].
  cbn [map]. rewrite concat_empty_cons. cbn [hex_of_byte append String.length List.length].
  rewrite IH. lia.
Qed.

(** X4.  A guest id is "guest_" followed by 32 hexadecimal digits, 38
    characters in all, and it determines the 16 random bytes it was made
    from: two ids are equal only when their bytes are. *)
Theorem generateGuestId_injective (r1 r2 : Rng) :
  String.length (fst (generateGuestId r1)) = 38%nat /\
  fst (generateGuestId r1) = ("guest_" ++ toString_hex (fst (randomBytes 16 r1)))%string /\
  (fst (generateGuestId r1) = fst (generateGuestId r2) ->
   fst (randomBytes 16 r1) = fst (randomBytes 16 r2)).
Proof.
  unfold generateGuestId.
  destruct (randomBytes 16 r1) as [b1 r1'] eqn:E1.
  destruct (randomBytes 16 r2) as [b2 r2'] eqn:E2. cbn [fst].
  assert (H1 : List.length b1 = 16%nat).
  { replace b1 with (fst (randomBytes 16 r1)) by now rewrite E1.
    apply length_randomBytes. }
  split; [|split; [reflexivity|]].
  - cbn [append String.length]. rewrite length_toString_hex, H1. reflexivity.
  - cbn [append]. intros E. injection E as E.
    rewrite <- (parse_toString_hex b1), <- (parse_toString_hex b2). now rewrite E.
Qed.

End ShortCodeMore.

(** ** [UrlCache], continued *)

Module UrlCacheMore.
Import UrlCache.
Section More.
Variable Data : Type.
Implicit Types (c : UrlCache.t Data) (m : JsMap.t (Entry Data)) (e : Entry Data).

Lemma get_set_other (V : Type) (k k' : string) (v : V) (m0 : JsMap.t V) :
  k' <> k -> JsMap.get k' (JsMap.set k v m0) = JsMap.get k' m0.
Proof.
  intros Hne. induction m0 as [|[k0 v0] m0 IH]; simpl.
  - destruct (String.eqb_spec k k'); [congruence | reflexivity].
  - destruct (String.eqb_spec k0 k) as [->|Hk]; simpl.
    + destruct (String.eqb_spec k k'); [congruence | reflexivity].
    + destruct (String.eqb_spec k0 k'); [reflexivity | exact IH].
Qed.

Lemma get_delete_other (V : Type) (k k' : string) (m0 : JsMap.t V) :
  k' <> k -> JsMap.get k' (JsMap.delete k m0) = JsMap.get k' m0.
Proof.
  intros Hne. induction m0 as [|[k0 v0] m0 IH]; simpl; [reflexivity|].
  destruct (String.eqb_spec k0 k) as [->|Hk]; simpl.
  - destruct (String.eqb_spec k k'); [congruence | exact IH].
  - destruct (String.eqb_spec k0 k'); [reflexivity | exact IH].
Qed.

Lemma get_Some_keys (V : Type) (k : string) (v : V) (m0 : JsMap.t V) :
  JsMap.get k m0 = Some v -> In k (JsMap.keys m0).
Proof.
  intros E. apply JsMapFacts.get_In in E. apply (in_map fst) in E. exact E.
Qed.

Lemma In_get (V : Type) (k : string) (v : V) (m0 : JsMap.t V) :
  NoDup (JsMap.keys m0) -> In (k, v) m0 -> JsMap.get k m0 = Some v.
Proof.
  induction m0 as [|[k0 v0] m0 IH]; simpl; [tauto|].
  intros ND Hin. inversion ND as [|? ? Hnotin ND']; subst.
  destruct Hin as [E|Hin].
  - injection E as -> ->. now rewrite String.eqb_refl.
  - destruct (String.eqb_spec k0 k) as [->|Hk]; [|auto].
    exfalso. apply Hnotin. apply (in_map fst) in Hin. exact Hin.
Qed.

Lemma In_set_other (V : Type) (k k' : string) (v v' : V) (m0 : JsMap.t V) :
  k' <> k -> In (k', v') m0 -> In (k', v') (JsMap.set k v m0).
Proof.
  intros Hne. induction m0 as [|[k0 v0] m0 IH]; simpl; [tauto|].
  destruct (String.eqb_spec k0 k) as [->|Hk]; simpl.
  - intros [E|Hin]; [injection E as E _; congruence | now right].
  - intros [E|Hin]; [now left | right; auto].
Qed.

Lemma size_set_le (V : Type) (k : string) (v : V) (m0 : JsMap.t V) :
  (JsMap.size (JsMap.set k v m0) <= S (JsMap.size m0))%nat.
Proof.
  destruct (in_dec string_dec k (JsMap.keys m0)) as [Hin|Hnin].
  - rewrite JsMapFacts.size_set_in by exact Hin. lia.
  - rewrite JsMapFacts.size_set_fresh by exact Hnin. lia.
Qed.

Lemma size_delete_le (V : Type) (k : string) (m0 : JsMap.t V) :
  (JsMap.size (JsMap.delete k m0) <= JsMap.size m0)%nat.
Proof.
  unfold JsMap.size. induction m0 as [|[k0 v0] m0 IH]; simpl; [lia|].
  destruct (k0 =? k)%string; simpl; lia.
Qed.

Lemma keys_filter_subset (f : string * Entry Data -> bool) m k :
  In k (JsMap.keys (filter f m)) -> In k (JsMap.keys m).
Proof.
  unfold JsMap.keys. rewrite !in_map_iff. intros (x & Hx & Hin).
  apply filter_In in Hin. exists x. tauto.
Qed.

(** Looking a key up after filtering a map with one binding per key. *)
Lemma get_filter (f : string * Entry Data -> bool) m k :
  NoDup (JsMap.keys m) ->
  JsMap.get k (filter f m) =
  match JsMap.get k m with
  | Some e => if f (k, e) then Some e else None
  | None => None
  end.
Proof.
  induction m as [|[k0 e0] m IH]; simpl; [reflexivity|].
  intros ND. inversion ND as [|? ? Hnotin ND']; subst.
  destruct (String.eqb_spec k0 k) as [->|Hk].
  - destruct (f (k, e0)); simpl; [now rewrite String.eqb_refl|].
    apply JsMapFacts.get_None_keys. intros Hin. apply Hnotin.
    eapply keys_filter_subset; eauto.
  - destruct (f (k0, e0)); simpl; [|auto].
    destruct (String.eqb_spec k0 k); [contradiction | auto].
Qed.

Lemma filter_idem (A : Type) (f : A -> bool) (l : list A) :
  filter f (filter f l) = filter f l.
Proof.
  induction l as [|x l IH]; simpl; [reflexivity|].
  destruct (f x) eqn:E; simpl; [rewrite E; now f_equal | exact IH].
Qed.

(** X5.  [cleanup] at an instant leaves only entries that have not expired
    by then and keeps each of those as it is; no [get] at that instant or
    later can tell whether the sweep has run; and sweeping again at the
    same instant changes nothing. *)
Theorem cleanup_is_invisible c (now : Z) :
  wf c ->
  (forall k e, In (k, e) (cache (cleanup now c)) ->
               In (k, e) (cache c) /\ now <= expiresAt e) /\
  (forall k e, JsMap.get k (cache c) = Some e -> now <= expiresAt e ->
               JsMap.get k (cache (cleanup now c)) = Some e) /\
  (forall now' code, now <= now' ->
     fst (get now' code (cleanup now c)) = fst (get now' code c)) /\
  cleanup now (cleanup now c) = cleanup now c.
Proof.
  intros Hwf. unfold cleanup. cbn [cache with_cache maxSize ttl].
  split; [|split; [|split]].
  - intros k e Hin. apply filter_In in Hin. destruct Hin as [Hin Hkeep].
    split; [exact Hin|]. cbn [snd] in Hkeep.
    destruct (Z.gtb_spec now (expiresAt e)); [discriminate | lia].
  - intros k e Hget Hlive. rewrite get_filter by exact Hwf. rewrite Hget. cbn [snd].
    destruct (Z.gtb_spec now (expiresAt e)); [lia | reflexivity].
  - intros now' code Hlater. unfold get. cbn [cache with_cache].
    rewrite get_filter by exact Hwf.
    destruct (JsMap.get code (cache c)) as [e|]; [|reflexivity]. cbn [snd].
    destruct (Z.gtb_spec now (expiresAt e)); cbn [negb].
    + destruct (Z.gtb_spec now' (expiresAt e)); [reflexivity | lia].
    + destruct (now' >? expiresAt e); reflexivity.
  - now rewrite filter_idem.
Qed.

Lemma maxSize_evict c : maxSize (evictLeastUsed c) = maxSize c.
Proof.
  unfold evictLeastUsed. destruct (scan (cache c)) as [[k e]|]; [|reflexivity].
  now destruct (truthy_str (Some k)).
Qed.

Lemma set_within now code d c :
  (0 < maxSize c)%nat -> code <> "" -> within c -> within (set now code d c).
Proof.
  intros Hpos Hcode (Hwf & Hkeys & Hsize).
  split; [now apply UrlCacheFacts.wf_preserved|].
  unfold set.
  destruct (Nat.leb_spec (maxSize c) (JsMap.size (cache c))) as [Hfull|Hroom].
  - assert (Hne : cache c <> []).
    { intros E. rewrite E in Hfull. simpl in Hfull. lia. }
    destruct (UrlCacheFacts.evictLeastUsed_spec Hwf Hne Hkeys)
      as (k & e & _ & _ & _ & Hev & Hsz).
    rewrite Hev. cbn [cache with_cache maxSize ttl]. split.
    + intros k0 Hk0. apply JsMapFacts.In_keys_set in Hk0.
      destruct Hk0 as [Hk0| ->]; [|exact Hcode].
      apply JsMapFacts.In_keys_delete in Hk0. now apply Hkeys.
    + pose proof (size_set_le code (mkEntry d (now + ttl c) 1 now)
                              (JsMap.delete k (cache c))). lia.
  - cbn [cache with_cache maxSize ttl]. split.
    + intros k0 Hk0. apply JsMapFacts.In_keys_set in Hk0.
      destruct Hk0 as [Hk0| ->]; [now apply Hkeys | exact Hcode].
    + pose proof (size_set_le code (mkEntry d (now + ttl c) 1 now) (cache c)). lia.
Qed.

Lemma step_within c (op : Op Data) :
  (0 < maxSize c)%nat ->
  (forall k, In k (set_codes [op]) -> k <> "") ->
  within c -> within (step c op) /\ maxSize (step c op) = maxSize c.
Proof.
  intros Hpos Hcodes Hin. pose proof Hin as (Hwf & Hkeys & Hsize).
  destruct op as [now code|now code d|code|now|]; cbn [step].
  - pose proof (proj1 (proj2 (UrlCacheFacts.wf_preserved Hwf)) now code) as W.
    split; [|unfold get; destruct (JsMap.get code (cache c)) as [e|];
              [destruct (now >? expiresAt e)|]; reflexivity].
    split; [exact W|]. clear W.
    unfold get. destruct (JsMap.get code (cache c)) as [e|] eqn:Eg; [|cbn [snd]; tauto].
    destruct (now >? expiresAt e); cbn [snd cache with_cache maxSize].
    + split.
      * intros k0 Hk0. apply JsMapFacts.In_keys_delete in Hk0. now apply Hkeys.
      * pose proof (size_delete_le code (cache c)). lia.
    + split.
      * intros k0 Hk0. apply JsMapFacts.In_keys_set in Hk0.
        destruct Hk0 as [Hk0| ->]; [now apply Hkeys|].
        apply Hkeys. eapply get_Some_keys; eauto.
      * rewrite JsMapFacts.size_set_in; [exact Hsize|]. eapply get_Some_keys; eauto.
  - split; [|apply UrlCacheFacts.maxSize_set].
    apply set_within; auto. apply Hcodes. simpl. now left.
  - split; [|reflexivity]. split; [now apply UrlCacheFacts.wf_preserved|].
    unfold invalidate. cbn [cache with_cache maxSize]. split.
    + intros k0 Hk0. apply JsMapFacts.In_keys_delete in Hk0. now apply Hkeys.
    + pose proof (size_delete_le code (cache c)). lia.
  - split; [|reflexivity]. split; [now apply UrlCacheFacts.wf_preserved|].
    unfold cleanup. cbn [cache with_cache maxSize]. split.
    + intros k0 Hk0. apply Hkeys. eapply keys_filter_subset; eauto.
    + pose proof (filter_length_le (fun ke => negb (now >? expiresAt (snd ke))) (cache c)).
      unfold JsMap.size in *. lia.
  - split; [|reflexivity]. unfold clear, within, wf. cbn [cache with_cache maxSize].
    split; [constructor|]. split; [intros k [] | simpl; lia].
Qed.

Lemma run_within (ops : list (Op Data)) : forall c,
  (0 < maxSize c)%nat ->
  (forall k, In k (set_codes ops) -> k <> "") ->
  within c -> within (run ops c) /\ maxSize (run ops c) = maxSize c.
Proof.
  induction ops as [|op ops IH]; intros c Hpos Hcodes Hin; [now split|].
  assert (Hop : forall k, In k (set_codes [op]) -> k <> "").
  { intros k Hk. apply Hcodes. unfold set_codes in *. simpl in *.
    rewrite app_nil_r in Hk. apply in_or_app. now left. }
  destruct (step_within op Hpos Hop Hin) as [Hin' Hmax].
  change (run (op :: ops) c) with (run ops (step c op)).
  destruct (IH (step c op)) as [Hfin Hmax']; [lia| |exact Hin'|].
  - intros k Hk. apply Hcodes. unfold set_codes in *. simpl. apply in_or_app. now right.
  - split; [exact Hfin | lia].
Qed.

(** X6.  A cache created with a capacity of at least 1 and only ever given
    non-empty codes never reports more entries than its capacity, whatever
    [get], [set], [invalidate], [cleanup] and [clear] calls it has served,
    in whatever order and at whatever instants; and it keeps one entry per
    code. *)
Theorem size_never_exceeds_maxSize (capacity : nat) (ttl0 : Z) (ops : list (Op Data)) :
  (0 < capacity)%nat ->
  (forall k, In k (set_codes ops) -> k <> "") ->
  let stats := getStats (run ops (create Data capacity ttl0)) in
  (s_size stats <= s_maxSize stats)%nat /\
  s_maxSize stats = capacity /\ s_ttl stats = ttl0 /\
  NoDup (JsMap.keys (cache (run ops (create Data capacity ttl0)))).
Proof.
  intros Hpos Hcodes stats.
  destruct (@run_within ops (create Data capacity ttl0)) as [(Hwf & _ & Hsize) Hmax];
    [exact Hpos | exact Hcodes | |].
  { split; [constructor|]. split; [intros k [] | simpl; lia]. }
  subst stats. unfold getStats. cbn [s_size s_maxSize s_ttl].
  split; [exact Hsize|]. split; [exact Hmax|]. split; [|exact Hwf].
  clear.
  assert (Hgen : forall c, ttl (run ops c) = ttl c).
  { induction ops as [|op ops IH]; intros c; [reflexivity|].
    change (run (op :: ops) c) with (run ops (step c op)). rewrite IH.
    destruct op as [now code|now code d|code|now|]; cbn [step]; try reflexivity.
    - unfold get. destruct (JsMap.get code (cache c)) as [e|]; [|reflexivity].
      now destruct (now >? expiresAt e).
    - unfold set. cbn [ttl with_cache].
      destruct (maxSize c <=? JsMap.size (cache c))%nat; [|reflexivity].
      unfold evictLeastUsed. destruct (scan (cache c)) as [[k e]|]; [|reflexivity].
      now destruct (truthy_str (Some k)). }
  rewrite Hgen. reflexivity.
Qed.

(** X7.  An entry that was just read is not the next one evicted: after a
    hit on [code] at an instant later than the last access of every other
    entry, a [set] of another code, evicting or not, leaves the entry of
    [code] in place, provided the cache holds some other entry to evict. *)
Theorem recently_read_survives c (now now' : Z) (code code' : string) e (d : Data) :
  wf c ->
  (forall k, In k (JsMap.keys (cache c)) -> k <> "") ->
  JsMap.get code (cache c) = Some e ->
  now <= expiresAt e ->
  (forall k' e', In (k', e') (cache c) -> k' <> code -> lastAccess e' < now) ->
  (exists k', In k' (JsMap.keys (cache c)) /\ k' <> code) ->
  code' <> code ->
  fst (get now code c) = Some (data e) /\
  JsMap.get code (cache (set now' code' d (snd (get now code c))))
  = Some (mkEntry (data e) (expiresAt e) (hits e + 1) now).
Proof.
  intros Hwf Hkeys Hget Hlive Hold (k1 & Hk1 & Hk1ne) Hne.
  unfold get. rewrite Hget.
  destruct (Z.gtb_spec now (expiresAt e)); [lia|]. cbn [fst snd].
  split; [reflexivity|].
  set (e1 := mkEntry (data e) (expiresAt e) (hits e + 1) now).
  set (c1 := with_cache c (JsMap.set code e1 (cache c))).
  assert (Hget1 : JsMap.get code (cache c1) = Some e1) by apply JsMapFacts.get_set_same.
  assert (Hwf1 : wf c1).
  { unfold wf, c1. cbn [cache with_cache]. now apply JsMapFacts.NoDup_keys_set. }
  assert (Hkeys1 : forall k, In k (JsMap.keys (cache c1)) -> k <> "").
  { intros k Hk. unfold c1 in Hk. cbn [cache with_cache] in Hk.
    apply JsMapFacts.In_keys_set in Hk. destruct Hk as [Hk| ->]; [now apply Hkeys|].
    apply Hkeys. eapply get_Some_keys; eauto. }
  unfold set.
  destruct (Nat.leb_spec (maxSize c1) (JsMap.size (cache c1))) as [Hfull|Hroom];
    cbn [cache with_cache ttl maxSize].
  - assert (Hnil : cache c1 <> []).
    { intros E. rewrite E in Hget1. discriminate. }
    destruct (UrlCacheFacts.evictLeastUsed_spec Hwf1 Hnil Hkeys1)
      as (k & ek & Hin & Hmin & _ & Hev & _).
    rewrite Hev. cbn [cache with_cache].
    rewrite get_set_other by (intros E; apply Hne; congruence).
    assert (Hk : k <> code).
    { intros ->. pose proof (@In_get _ code ek (cache c1) Hwf1 Hin) as Hek. rewrite Hget1 in Hek.
      injection Hek as <-.
      unfold JsMap.keys in Hk1. apply in_map_iff in Hk1.
      destruct Hk1 as ([k1' e1'] & Ek & Hin1). cbn [fst] in Ek. subst k1'.
      assert (Hin1' : In (k1, e1') (cache c1)).
      { unfold c1. cbn [cache with_cache]. now apply In_set_other. }
      pose proof (Hmin _ _ Hin1') as Hle. pose proof (Hold _ _ Hin1 Hk1ne) as Hlt.
      unfold e1 in Hle. cbn [lastAccess] in Hle. lia. }
    rewrite get_delete_other by (intros E; apply Hk; congruence). exact Hget1.
  - rewrite get_set_other by (intros E; apply Hne; congruence). exact Hget1.
Qed.

(** X8.  [set] does not look whether the code is already cached before it
    makes room: on a full cache an overwrite evicts too.  When the least
    recently used entry is another code's, that entry is lost and the
    cache ends one entry short of its capacity; when it is the code's own,
    the size stays. *)
Theorem overwrite_at_capacity_evicts c (now : Z) (code : string) (d : Data) :
  wf c ->
  (forall k, In k (JsMap.keys (cache c)) -> k <> "") ->
  (0 < maxSize c)%nat ->
  JsMap.size (cache c) = maxSize c ->
  In code (JsMap.keys (cache c)) ->
  exists k e,
    scan (cache c) = Some (k, e) /\
    (k <> code ->
     JsMap.get k (cache (set now code d c)) = None /\
     S (JsMap.size (cache (set now code d c))) = maxSize c) /\
    (k = code -> JsMap.size (cache (set now code d c)) = maxSize c) /\
    JsMap.get code (cache (set now code d c)) = Some (mkEntry d (now + ttl c) 1 now).
Proof.
  intros Hwf Hkeys Hpos Hfull Hin.
  assert (Hnil : cache c <> []).
  { intros E. rewrite E in Hfull. simpl in Hfull. lia. }
  destruct (UrlCacheFacts.scan_min Hnil) as (k & e & Hscan & Hink & _).
  assert (Hk : In k (JsMap.keys (cache c))) by (apply (in_map fst) in Hink; exact Hink).
  exists k, e. split; [exact Hscan|].
  assert (Hset : set now code d c =
                 with_cache c (JsMap.set code (mkEntry d (now + ttl c) 1 now)
                                         (JsMap.delete k (cache c)))).
  { unfold set. rewrite <- Hfull, Nat.leb_refl. unfold evictLeastUsed. rewrite Hscan.
    cbn [truthy_str]. destruct (String.eqb_spec k ""); [exfalso; eapply Hkeys; eauto|].
    reflexivity. }
  rewrite Hset. cbn [cache with_cache].
  pose proof (@JsMapFacts.size_delete _ k (cache c) Hwf Hk) as Hsz.
  split; [|split].
  - intros Hne. split.
    + rewrite get_set_other by exact Hne. apply JsMapFacts.get_delete_same.
    + rewrite JsMapFacts.size_set_in; [lia|].
      apply JsMapFacts.In_keys_delete. split; [exact Hin | congruence].
  - intros ->. rewrite JsMapFacts.size_set_fresh; [lia|].
    rewrite JsMapFacts.In_keys_delete. tauto.
  - apply JsMapFacts.get_set_same.
Qed.

(** X9.  [get] and [invalidate] never touch the entry of another code, and
    neither does a [set] that finds room. *)
Theorem other_codes_untouched c (code k' : string) :
  k' <> code ->
  (forall now, JsMap.get k' (cache (snd (get now code c))) = JsMap.get k' (cache c)) /\
  JsMap.get k' (cache (invalidate code c)) = JsMap.get k' (cache c) /\
  (forall now d, (JsMap.size (cache c) < maxSize c)%nat ->
     JsMap.get k' (cache (set now code d c)) = JsMap.get k' (cache c)).
Proof.
  intros Hne. split; [|split].
  - intros now. unfold get. destruct (JsMap.get code (cache c)) as [e|]; [|reflexivity].
    destruct (now >? expiresAt e); cbn [snd cache with_cache].
    + now apply get_delete_other.
    + now apply get_set_other.
  - unfold invalidate. cbn [cache with_cache]. now apply get_delete_other.
  - intros now d Hroom. unfold set.
    destruct (Nat.leb_spec (maxSize c) (JsMap.size (cache c))); [lia|].
    cbn [cache with_cache]. now apply get_set_other.
Qed.

End More.
End UrlCacheMore.

(** ** The service, continued *)

Section ServiceMore.
Context `{Platform}.

(** *** The collection under its indexes *)

Lemma NoDup_map_injective (A B : Type) (f : A -> B) (l : list A) (a b : A) :
  NoDup (map f l) -> In a l -> In b l -> f a = f b -> a = b.
Proof.
  induction l as [|x l IH]; simpl; [tauto|].
  intros ND Ha Hb E. inversion ND as [|? ? Hnotin ND']; subst.
  destruct Ha as [->|Ha], Hb as [->|Hb]; auto.
  - exfalso. apply Hnotin. rewrite E. now apply in_map.
  - exfalso. apply Hnotin. rewrite <- E. now apply in_map.
Qed.

Lemma NoDup_map_filter (A B : Type) (f : A -> B) (g : A -> bool) (l : list A) :
  NoDup (map f l) -> NoDup (map f (filter g l)).
Proof.
  induction l as [|x l IH]; simpl; [auto|].
  intros ND. inversion ND as [|? ? Hnotin ND']; subst.
  destruct (g x); simpl; [|auto]. constructor; [|auto].
  intros Hin. apply Hnotin. apply in_map_iff in Hin. destruct Hin as (y & Ey & Hy).
  apply filter_In in Hy. apply in_map_iff. exists y. tauto.
Qed.

Lemma map_id_updateOne u docs : map Url._id (updateOne u docs) = map Url._id docs.
Proof.
  induction docs as [|d docs IH]; simpl; [reflexivity|].
  destruct (oid_eqb (Url._id d) (Url._id u)) eqn:E; simpl; [|now f_equal].
  apply oid_eqb_eq in E. now rewrite E.
Qed.

Lemma In_updateOne_inv u docs u' : In u' (updateOne u docs) -> u' = u \/ In u' docs.
Proof.
  induction docs as [|d docs IH]; simpl; [tauto|].
  destruct (oid_eqb (Url._id d) (Url._id u)); simpl; intuition.
Qed.

Lemma map_shortCode_updateOne u url docs :
  NoDup (map Url._id docs) -> In url docs ->
  Url._id u = Url._id url -> Url.shortCode u = Url.shortCode url ->
  map Url.shortCode (updateOne u docs) = map Url.shortCode docs.
Proof.
  intros ND Hin Hid Hcode. rewrite updateOne_map by exact ND.
  rewrite map_map. apply map_ext_in. intros d Hd.
  destruct (oid_eqb (Url._id d) (Url._id u)) eqn:E; [|reflexivity].
  apply oid_eqb_eq in E. rewrite Hid in E.
  rewrite (NoDup_map_injective Url._id _ d url ND Hd Hin E). exact Hcode.
Qed.

Lemma has_id_false i docs :
  has_id i docs = false -> ~ In i (map Url._id docs).
Proof.
  unfold has_id. intros Hf Hin. apply in_map_iff in Hin. destruct Hin as (d & <- & Hd).
  assert (Ht : existsb (fun d0 => oid_eqb (Url._id d0) (Url._id d)) docs = true).
  { apply existsb_exists. exists d. split; [exact Hd | now apply oid_eqb_eq]. }
  congruence.
Qed.

Lemma existsb_shortCode_false code docs :
  existsb (fun d => (Url.shortCode d =? code)%string) docs = false ->
  ~ In code (map Url.shortCode docs).
Proof.
  intros Hf Hin. apply in_map_iff in Hin. destruct Hin as (d & <- & Hd).
  assert (Ht : existsb (fun d0 => (Url.shortCode d0 =? Url.shortCode d)%string) docs = true).
  { apply existsb_exists. exists d. split; [exact Hd | apply String.eqb_refl]. }
  congruence.
Qed.

Lemma NoDup_snoc (A : Type) (l : list A) (x : A) : NoDup l -> ~ In x l -> NoDup (l ++ [x]).
Proof.
  intros ND Hx. apply NoDup_app; [exact ND | repeat constructor; simpl; tauto |].
  intros y Hy [<-|[]]. contradiction.
Qed.

Lemma fresh_id_has_id w : store_ok w -> has_id (Oid (nextOid w)) (db w) = false.
Proof.
  intros (_ & _ & Hlt). unfold has_id.
  destruct (existsb _ (db w)) eqn:E; [|reflexivity].
  apply existsb_exists in E. destruct E as (d & Hd & E).
  apply oid_eqb_eq in E. specialize (Hlt d Hd). rewrite E in Hlt. lia.
Qed.

(** [save] keeps the collection within its indexes when the document is
    new and carries the next id, or is a stored document whose id and
    short code were left alone. *)
Lemma save_store_ok u err w :
  store_ok w ->
  (has_id (Url._id u) (db w) = true ->
   exists url, In url (db w) /\ Url._id u = Url._id url /\
               Url.shortCode u = Url.shortCode url) ->
  (has_id (Url._id u) (db w) = false ->
   match Url._id u with Oid n => (n < nextOid w)%nat end) ->
  store_ok (snd (save u err w)).
Proof.
  intros Hok Hold Hnew. pose proof Hok as (Hcodes & Hids & Hlt). unfold save.
  destruct (err || negb (Url.validate u)); [exact Hok|].
  destruct (has_id (Url._id u) (db w)) eqn:Eid; cbn [snd].
  - destruct (Hold eq_refl) as (url & Hin & Hid & Hcode).
    unfold store_ok. cbn [db with_db nextOid].
    rewrite map_id_updateOne, (map_shortCode_updateOne u url) by assumption.
    split; [exact Hcodes|]. split; [exact Hids|].
    intros u' Hu'. apply In_updateOne_inv in Hu'.
    destruct Hu' as [->|Hu']; [|exact (Hlt u' Hu')].
    rewrite Hid. exact (Hlt url Hin).
  - destruct (existsb _ (db w)) eqn:Edup; cbn [snd]; [exact Hok|].
    unfold store_ok. cbn [db with_db nextOid]. rewrite !map_app. cbn [map].
    assert (Hsame : Url._id (Url.set_createdAt (clock w) u) = Url._id u /\
                    Url.shortCode (Url.set_createdAt (clock w) u) = Url.shortCode u)
      by (split; reflexivity).
    destruct Hsame as [-> ->].
    split; [apply NoDup_snoc; [exact Hcodes | now apply existsb_shortCode_false]|].
    split; [apply NoDup_snoc; [exact Hids | now apply has_id_false]|].
    intros u' Hu'. apply in_app_or in Hu'.
    destruct Hu' as [Hu'|[<-|[]]]; [exact (Hlt u' Hu')|].
    apply (Hnew eq_refl).
Qed.

Lemma store_ok_frame w w' :
  db w' = db w -> (nextOid w <= nextOid w')%nat -> store_ok w -> store_ok w'.
Proof.
  intros Edb Hle (Hcodes & Hids & Hlt). unfold store_ok. rewrite Edb.
  split; [exact Hcodes|]. split; [exact Hids|].
  intros u Hu. specialize (Hlt u Hu). destruct (Url._id u). lia.
Qed.

(** *** [createUrl] *)

Lemma chooseShortCode_frame p w :
  db (snd (chooseShortCode p w)) = db w /\
  nextOid (snd (chooseShortCode p w)) = nextOid w /\
  urlCache (snd (chooseShortCode p w)) = urlCache w /\
  clock (snd (chooseShortCode p w)) = clock w.
Proof.
  unfold chooseShortCode. destruct (or_null (p_customSlug p)) as [slug|].
  - destruct (negb (ShortCode.isValidSlug slug)); [simpl; tauto|].
    unfold bind, findOne.
    destruct (is_some (find (by_shortCode slug) (db w))); simpl; tauto.
  - unfold generateUniqueShortCode_db.
    destruct (ShortCode.generateUniqueShortCode _ (rng w)) as [[c l] r]. simpl. tauto.
Qed.

Lemma chooseShortCode_slug p w code w1 slug :
  chooseShortCode p w = (inr code, w1) ->
  or_null (p_customSlug p) = Some slug ->
  code = slug /\ ShortCode.isValidSlug slug = true /\
  find (by_shortCode slug) (db w) = None /\ w1 = w.
Proof.
  unfold chooseShortCode. intros Hrun Hslug. rewrite Hslug in Hrun.
  destruct (ShortCode.isValidSlug slug); [|discriminate]. cbn [negb] in Hrun.
  unfold bind, findOne in Hrun.
  destruct (find (by_shortCode slug) (db w)); [discriminate|].
  cbn [is_some] in Hrun. unfold ret in Hrun. injection Hrun as <- <-. tauto.
Qed.

(** [createUrl], step by step. *)
Lemma createUrl_run p w :
  createUrl p w =
  if negb (isValidUrl (p_originalUrl p)) then
    (inl (ThrowApp (AppError.badRequest "Invalid URL format")), w)
  else
    match chooseShortCode p w with
    | (inl e, w1) => (inl e, w1)
    | (inr code, w1) =>
        match determineExpiration p w1 with
        | (inl e, w2) => (inl e, w2)
        | (inr urlExpiration, _) =>
            let (doc, castError) := newUrl (Oid (nextOid w1)) p code urlExpiration in
            match save doc castError
                       (mkWorld (db w1) (urlCache w1) (clock w1) (rng w1) (S (nextOid w1))) with
            | (inl e, w4) => (inl e, w4)
            | (inr url, w4) => (inr (formatUrlResponse url), w4)
            end
        end
    end.
Proof.
  unfold createUrl. destruct (negb (isValidUrl (p_originalUrl p))); [reflexivity|].
  unfold bind at 1. destruct (chooseShortCode p w) as [[e|code] w1]; [reflexivity|].
  unfold bind at 1. rewrite determineExpiration_run.
  unfold bind at 1, newObjectId.
  destruct (newUrl (Oid (nextOid w1)) p code _) as [doc castError].
  unfold bind, ret. now destruct (save doc castError _) as [[e|url] w4].
Qed.

(** What a successful [createUrl] did, when the next id is not in use. *)
Lemma createUrl_inr p w resp w' :
  has_id (Oid (nextOid w)) (db w) = false ->
  createUrl p w = (inr resp, w') ->
  exists code w1 originalUrl expiresAt,
    chooseShortCode p w = (inr code, w1) /\
    isValidUrl (p_originalUrl p) = true /\
    cast_originalUrl (VStr (p_originalUrl p)) = CastOk (Some originalUrl) /\
    determineExpiration p w = (inr (CastOk expiresAt), w) /\
    ~ In code (map Url.shortCode (db w)) /\
    let url := Url.mkUrl (Oid (nextOid w)) originalUrl code (or_null (p_customSlug p))
                         (p_userId p) (or_null (p_guestId p)) 0 [] (Some true)
                         expiresAt None (clock w) in
    resp = formatUrlResponse url /\
    w' = mkWorld (db w ++ [url]) (urlCache w) (clock w) (rng w1) (S (nextOid w)).
Proof.
  intros Hfresh. rewrite createUrl_run.
  destruct (isValidUrl (p_originalUrl p)) eqn:Evalid; [|discriminate]. cbn [negb].
  destruct (chooseShortCode_frame p w) as (Edb & Enext & Ecache & Eclock).
  destruct (chooseShortCode p w) as [[e|code] w1] eqn:Ecode; [discriminate|].
  cbn [snd] in Edb, Enext, Ecache, Eclock.
  rewrite determineExpiration_run.
  pose proof (determineExpiration_run p w) as Eexp. rewrite Eclock.
  destruct (newUrl (Oid (nextOid w1)) p code _) as [doc castError] eqn:Edoc.
  unfold save. destruct castError; [discriminate|]. cbn [orb].
  destruct (negb (Url.validate doc)); [discriminate|].
  cbn [db]. rewrite Edb, Enext.
  unfold newUrl in Edoc.
  destruct (cast_originalUrl (VStr (p_originalUrl p))) as [[originalUrl|]|] eqn:Ecast;
    cbn [orb] in Edoc;
    try (destruct (if _ : bool then _ else _) in Edoc; discriminate).
  match type of Eexp with
  | _ = (inr ?ue, _) => destruct ue as [expiresAt|] eqn:Eue
  end; [|discriminate].
  injection Edoc as <-. cbn [Url._id Url.shortCode]. rewrite Enext, Hfresh.
  destruct (existsb _ (db w)) eqn:Edup; [discriminate|].
  intros E. injection E as <- <-.
  exists code, w1, originalUrl, expiresAt.
  split; [reflexivity|]. split; [reflexivity|]. split; [reflexivity|].
  split; [exact Eexp|]. split; [now apply existsb_shortCode_false|].
  cbv zeta. split; [reflexivity|].
  unfold with_db. cbn [db urlCache clock rng nextOid Url.set_createdAt].
  now rewrite Ecache.
Qed.

(** X11.  What [createUrl] refuses, in this order, each time leaving the
    whole state as it was: a URL that is not http or https, with the 400
    error "Invalid URL format"; then a custom slug that [isValidSlug]
    rejects, with a 400 error; then a custom slug that any stored document
    already has as its short code, whoever owns it and whether or not it is
    active or expired, with the 409 error. *)
Theorem createUrl_rejections (p : CreateParams) (w : World) :
  (isValidUrl (p_originalUrl p) = false ->
   createUrl p w = (inl (ThrowApp (AppError.badRequest "Invalid URL format")), w)) /\
  (forall slug,
     isValidUrl (p_originalUrl p) = true ->
     or_null (p_customSlug p) = Some slug ->
     ShortCode.isValidSlug slug = false ->
     createUrl p w =
     (inl (ThrowApp (AppError.badRequest
        "Invalid slug format. Use 3-50 alphanumeric characters, hyphens, or underscores")), w)) /\
  (forall slug u,
     isValidUrl (p_originalUrl p) = true ->
     or_null (p_customSlug p) = Some slug ->
     ShortCode.isValidSlug slug = true ->
     In u (db w) -> Url.shortCode u = slug ->
     createUrl p w =
     (inl (ThrowApp (AppError.conflict "This custom slug is already taken")), w)).
Proof.
  split; [|split].
  - intros Hbad. rewrite createUrl_run, Hbad. reflexivity.
  - intros slug Hok Hslug Hbad. rewrite createUrl_run, Hok. cbn [negb].
    unfold chooseShortCode. rewrite Hslug, Hbad. reflexivity.
  - intros slug u Hok Hslug Hvalid Hin Hcode. rewrite createUrl_run, Hok. cbn [negb].
    unfold chooseShortCode. rewrite Hslug, Hvalid. cbn [negb]. unfold bind, findOne.
    destruct (find (by_shortCode slug) (db w)) as [found|] eqn:Efind; [reflexivity|].
    exfalso. pose proof (find_none _ _ Efind u Hin) as Hno. unfold by_shortCode in Hno.
    rewrite Hcode, String.eqb_refl in Hno. discriminate.
Qed.

(** X12.  A successful [createUrl] on a collection within its indexes adds
    exactly one document, at the end, and touches nothing else of the
    collection nor the cache: the document carries the next id, a short
    code no stored document had (the custom slug itself when one was
    given), no clicks, an empty history, [isActive] true and the instant of
    the call as [createdAt]; the collection stays within its indexes. *)
Theorem createUrl_appends_one (p : CreateParams) (w : World) (resp : UrlResponse)
        (w' : World) :
  store_ok w ->
  createUrl p w = (inr resp, w') ->
  exists url,
    db w' = (db w ++ [url])%list /\ resp = formatUrlResponse url /\
    urlCache w' = urlCache w /\
    Url._id url = Oid (nextOid w) /\
    ~ In (Url.shortCode url) (map Url.shortCode (db w)) /\
    (forall slug, or_null (p_customSlug p) = Some slug ->
                  Url.shortCode url = slug /\ ShortCode.isValidSlug slug = true) /\
    Url.customSlug url = or_null (p_customSlug p) /\
    Url.clicks url = 0 /\ Url.clickHistory url = [] /\
    Url.isActive url = Some true /\ Url.createdAt url = clock w /\
    store_ok w'.
Proof.
  intros Hok Hrun. pose proof Hok as (Hcodes & Hids & Hlt).
  destruct (createUrl_inr _ _ (fresh_id_has_id Hok) Hrun)
    as (code & w1 & originalUrl & expiresAt & Hcode & _ & _ & _ & Hfresh & Hresp & Hw').
  cbv zeta in Hresp, Hw'. eexists. split; [rewrite Hw'; reflexivity|].
  split; [exact Hresp|]. rewrite Hw'. cbn [urlCache Url._id Url.shortCode Url.customSlug
    Url.clicks Url.clickHistory Url.isActive Url.createdAt].
  split; [reflexivity|]. split; [reflexivity|]. split; [exact Hfresh|].
  split.
  { intros slug Hslug. destruct (chooseShortCode_slug _ _ Hcode Hslug) as (-> & Hv & _).
    tauto. }
  repeat (split; [reflexivity|]).
  unfold store_ok. cbn [db nextOid]. rewrite !map_app. cbn [map Url._id Url.shortCode].
  split; [now apply NoDup_snoc|].
  split; [apply NoDup_snoc; [exact Hids | apply has_id_false, (fresh_id_has_id Hok)]|].
  intros u Hu. apply in_app_or in Hu. destruct Hu as [Hu|[<-|[]]].
  - specialize (Hlt u Hu). destruct (Url._id u). lia.
  - cbn [Url._id]. lia.
Qed.

(** *** The other calls, step by step *)

Lemma with_db_same w : with_db w (db w) = w.
Proof. now destruct w. Qed.

Lemma updateUrl_run code uid updates w :
  updateUrl code uid updates w =
  match find (by_shortCode_userId code uid) (db w) with
  | None => (inl (ThrowApp (AppError.notFound "URL not found or access denied")), w)
  | Some url =>
      match save (fst (fold_left applyUpdate updates (url, false)))
                 (snd (fold_left applyUpdate updates (url, false))) w with
      | (inl e, w1) => (inl e, w1)
      | (inr url'', w1) =>
          (inr (formatUrlResponse url''),
           with_urlCache w1 (UrlCache.invalidate (Url.shortCode url'') (urlCache w1)))
      end
  end.
Proof.
  unfold updateUrl, bind, findOne.
  destruct (find (by_shortCode_userId code uid) (db w)) as [url|]; [|reflexivity].
  destruct (fold_left applyUpdate updates (url, false)) as [url' err]. cbn [fst snd].
  now destruct (save url' err w) as [[e|url''] w1].
Qed.

Lemma recordClick_run code clickData w :
  recordClick code clickData w =
  match find (by_shortCode code) (db w) with
  | None => (inr tt, w)
  | Some url =>
      match save (Url.recordClick (clock w) clickData url) false w with
      | (inl e, w1) => (inl e, w1)
      | (inr _, w1) => (inr tt, w1)
      end
  end.
Proof.
  unfold recordClick, bind, findOne.
  destruct (find (by_shortCode code) (db w)) as [url|]; [|reflexivity].
  unfold Date_now. now destruct (save _ false w) as [[e|u] w1].
Qed.

(** A cache miss sends [getByShortCode] to the collection. *)
Lemma getByShortCode_miss code w :
  JsMap.get code (UrlCache.cache (urlCache w)) = None ->
  getByShortCode code w =
  match find (by_shortCode_active code) (db w) with
  | None => (inl (ThrowApp (AppError.notFound "URL not found")), w)
  | Some url =>
      if match Url.expiresAt url with Some t => t <? clock w | None => false end then
        (inl (ThrowApp (AppError.notFound "URL has expired")), w)
      else
        let urlData := mkUrlData (Url.originalUrl url) (Url.shortCode url) (Url._id url) in
        (inr urlData,
         with_urlCache w (UrlCache.set (clock w) code urlData (urlCache w)))
  end.
Proof.
  intros Hmiss. unfold getByShortCode, bind.
  rewrite (urlCache_get_miss _ _ Hmiss). unfold findByShortCode, findOne.
  destruct (find (by_shortCode_active code) (db w)) as [url|]; [|reflexivity].
  unfold Date_now.
  now destruct (match Url.expiresAt url with Some t => t <? clock w | None => false end).
Qed.

(** [getByShortCode] never writes to the collection. *)
Lemma getByShortCode_frame code w :
  db (snd (getByShortCode code w)) = db w /\
  nextOid (snd (getByShortCode code w)) = nextOid w /\
  clock (snd (getByShortCode code w)) = clock w.
Proof.
  unfold getByShortCode, bind, urlCache_get.
  destruct (UrlCache.get (clock w) code (urlCache w)) as [[d|] c]; [simpl; tauto|].
  unfold findByShortCode, findOne. cbn [db with_urlCache].
  destruct (find (by_shortCode_active code) (db w)) as [url|]; [|simpl; tauto].
  unfold Date_now. cbn [clock with_urlCache].
  destruct (match Url.expiresAt url with Some t => t <? clock w | None => false end);
    simpl; tauto.
Qed.

Lemma In_deleteFirst q docs u : In u (deleteFirst q docs) -> In u docs.
Proof.
  induction docs as [|d docs IH]; simpl; [tauto|].
  destruct (q d); simpl; intuition.
Qed.

Lemma NoDup_map_deleteFirst (B : Type) (f : Url.t -> B) q docs :
  NoDup (map f docs) -> NoDup (map f (deleteFirst q docs)).
Proof.
  induction docs as [|d docs IH]; simpl; [auto|].
  intros ND. inversion ND as [|? ? Hnotin ND']; subst.
  destruct (q d); simpl; [exact ND'|]. constructor; [|auto].
  intros Hin. apply Hnotin. apply in_map_iff in Hin. destruct Hin as (y & Ey & Hy).
  apply in_map_iff. exists y. split; [exact Ey | eapply In_deleteFirst; eauto].
Qed.

Lemma save_frame u err w :
  nextOid (snd (save u err w)) = nextOid w /\ urlCache (snd (save u err w)) = urlCache w /\
  clock (snd (save u err w)) = clock w.
Proof.
  unfold save. destruct (err || negb (Url.validate u)); [tauto|].
  destruct (has_id (Url._id u) (db w)); [simpl; tauto|].
  destruct (existsb _ (db w)); simpl; tauto.
Qed.

Lemma recordClick_store_ok code clickData w : store_ok w -> store_ok (snd (recordClick code clickData w)).
Proof.
  intros Hok. rewrite recordClick_run.
  destruct (find (by_shortCode code) (db w)) as [url|] eqn:Efind; [|exact Hok].
  assert (Hsave : store_ok (snd (save (Url.recordClick (clock w) clickData url) false w))).
  { apply save_store_ok; [exact Hok| |].
    - intros _. exists url. split; [exact (proj1 (find_some _ _ Efind))|]. now split.
    - intros Hno. exfalso.
      pose proof (has_id_In url (db w) (proj1 (find_some _ _ Efind))) as Hyes.
      cbn [Url.recordClick Url.set_clicks Url._id] in Hno. congruence. }
  now destruct (save _ false w) as [[e|u] w1].
Qed.

Lemma newUrl_id id p code ue : Url._id (fst (newUrl id p code ue)) = id.
Proof.
  unfold newUrl. now destruct (cast_originalUrl (VStr (p_originalUrl p))) as [[s|]|], ue.
Qed.

(** X10.  Every call of the service, whatever its arguments and whether it
    returns or throws, keeps the collection within its indexes: one
    document per short code, one per id, and no id from the future. *)
Theorem service_keeps_indexes (w : World) :
  store_ok w ->
  (forall p, store_ok (snd (createUrl p w))) /\
  (forall code uid updates, store_ok (snd (updateUrl code uid updates w))) /\
  (forall code uid, store_ok (snd (deleteUrl code uid w))) /\
  (forall code gid, store_ok (snd (deleteGuestUrl code gid w))) /\
  (forall code clickData, store_ok (snd (recordClick code clickData w))) /\
  (forall code, store_ok (snd (getByShortCode code w))) /\
  (forall req, store_ok (snd (redirectUrl req w))) /\
  store_ok (snd (cleanupExpiredUrls w)) /\
  store_ok (snd (setExpirationForGuestUrls w)).
Proof.
  intros Hok. pose proof Hok as (Hcodes & Hids & Hlt).
  assert (Hdel : forall q, store_ok (with_db w (deleteFirst q (db w)))).
  { intros q. unfold store_ok. cbn [db with_db nextOid].
    split; [now apply NoDup_map_deleteFirst|]. split; [now apply NoDup_map_deleteFirst|].
    intros u Hu. apply Hlt. eapply In_deleteFirst; eauto. }
  assert (Hresolve : forall code, store_ok (snd (getByShortCode code w))).
  { intros code. destruct (getByShortCode_frame code w) as (Edb & Enext & _).
    apply (@store_ok_frame w _); [exact Edb | lia | exact Hok]. }
  refine (conj _ (conj _ (conj _ (conj _ (conj _ (conj _ (conj _ (conj _ _)))))))).
  - intros p. rewrite createUrl_run.
    destruct (negb (isValidUrl (p_originalUrl p))); [exact Hok|].
    destruct (chooseShortCode_frame p w) as (Edb & Enext & _).
    destruct (chooseShortCode p w) as [[e|code] w1] eqn:Ecode; cbn [snd] in *.
    { apply (@store_ok_frame w _); [exact Edb | lia | exact Hok]. }
    rewrite determineExpiration_run.
    destruct (newUrl (Oid (nextOid w1)) p code _) as [doc castError] eqn:Edoc.
    assert (Hid : Url._id doc = Oid (nextOid w1)).
    { replace doc with (fst (newUrl (Oid (nextOid w1)) p code
        (if truthy_str (p_guestId p) && negb (is_some (p_userId p))
         then CastOk (Some (Date_plusDays GUEST_URL_EXPIRY_DAYS (clock w1)))
         else if is_some (p_userId p) && truthy (p_expiresAt p)
              then match Date_new (p_expiresAt p) with
                   | Some t => CastOk (Some t)
                   | None => CastError
                   end
              else CastOk None))) by now rewrite Edoc.
      apply newUrl_id. }
    set (w3 := mkWorld (db w1) (urlCache w1) (clock w1) (rng w1) (S (nextOid w1))).
    assert (Hok3 : store_ok w3).
    { apply (@store_ok_frame w _); [exact Edb | simpl; lia | exact Hok]. }
    assert (Hsave : store_ok (snd (save doc castError w3))).
    { apply save_store_ok; [exact Hok3| |].
      - intros Hyes. exfalso. pose proof (fresh_id_has_id Hok) as Hno.
        rewrite Hid in Hyes. cbn [db w3] in Hyes. rewrite Edb, Enext in Hyes. congruence.
      - intros _. rewrite Hid. cbn [nextOid w3]. lia. }
    now destruct (save doc castError w3) as [[e|url] w4].
  - intros code uid updates. rewrite updateUrl_run.
    destruct (find (by_shortCode_userId code uid) (db w)) as [url|] eqn:Efind; [|exact Hok].
    pose proof (fold_applyUpdate_immutable updates (url, false)) as Himm. cbn [fst] in Himm.
    set (st := fold_left applyUpdate updates (url, false)) in *.
    assert (Hsave : store_ok (snd (save (fst st) (snd st) w))).
    { apply save_store_ok; [exact Hok| |].
      - intros _. exists url. split; [exact (proj1 (find_some _ _ Efind))|].
        split; symmetry; apply Himm.
      - intros Hno. exfalso.
        pose proof (has_id_In url (db w) (proj1 (find_some _ _ Efind))) as Hyes.
        replace (Url._id (fst st)) with (Url._id url) in Hno by apply Himm. congruence. }
    destruct (save (fst st) (snd st) w) as [[e|url''] w1]; [exact Hsave|].
    cbn [snd] in *. apply (@store_ok_frame w1 _); [reflexivity | simpl; lia | exact Hsave].
  - intros code uid. unfold deleteUrl, bind, findOneAndDelete.
    destruct (find (by_shortCode_userId code uid) (db w)) as [url|]; cbn [snd].
    + apply (@store_ok_frame (with_db w (deleteFirst (by_shortCode_userId code uid) (db w))) _);
        [reflexivity | simpl; lia | apply Hdel].
    + apply Hdel.
  - intros code gid. unfold deleteGuestUrl, bind, findOneAndDelete.
    destruct (find (by_shortCode_guestId code gid) (db w)) as [url|]; cbn [snd].
    + apply (@store_ok_frame (with_db w (deleteFirst (by_shortCode_guestId code gid) (db w))) _);
        [reflexivity | simpl; lia | apply Hdel].
    + apply Hdel.
  - intros code clickData. now apply recordClick_store_ok.
  - exact Hresolve.
  - intros req. unfold redirectUrl, redirectUrl_try, bind.
    specialize (Hresolve (params_shortCode req)).
    destruct (getByShortCode (params_shortCode req) w) as [[e|d] w1]; [exact Hresolve|].
    cbn [snd] in Hresolve. unfold Date_now. cbn [UrlData_expiresAt].
    unfold swallow, ret. cbn [snd]. now apply recordClick_store_ok.
  - unfold cleanupExpiredUrls, bind, Date_now, deleteMany. cbn [snd].
    unfold store_ok. cbn [db with_db nextOid].
    split; [now apply NoDup_map_filter|]. split; [now apply NoDup_map_filter|].
    intros u Hu. apply filter_In in Hu. now apply Hlt.
  - unfold setExpirationForGuestUrls, bind, Date_now, updateMany. cbn [snd].
    unfold store_ok. cbn [db with_db nextOid]. rewrite !map_map.
    assert (Hs : forall d t, Url.shortCode (if guest_without_expiry d
                                            then Url.set_expiresAt t d else d)
                             = Url.shortCode d)
      by (intros d t; now destruct (guest_without_expiry d)).
    assert (Hi : forall d t, Url._id (if guest_without_expiry d
                                      then Url.set_expiresAt t d else d) = Url._id d)
      by (intros d t; now destruct (guest_without_expiry d)).
    rewrite (map_ext _ Url.shortCode) by (intros d; apply Hs).
    rewrite (map_ext _ Url._id) by (intros d; apply Hi).
    split; [exact Hcodes|]. split; [exact Hids|].
    intros u Hu. apply in_map_iff in Hu. destruct Hu as (d & <- & Hd).
    rewrite Hi. now apply Hlt.
Qed.

(** *** Resolving after a change *)


Lemma find_absent_code (q : Url.t -> bool) code docs :
  ~ In code (map Url.shortCode docs) ->
  find (fun d => (Url.shortCode d =? code)%string && q d) docs = None.
Proof.
  intros Hno. apply find_none_iff. intros d Hd.
  destruct (String.eqb_spec (Url.shortCode d) code) as [E|]; [|reflexivity].
  exfalso. apply Hno. rewrite <- E. now apply in_map.
Qed.

Lemma miss_after_invalidate code c dt w :
  JsMap.get code (UrlCache.cache (urlCache
     (advance dt (with_urlCache w (UrlCache.invalidate code c))))) = None.
Proof. cbn [advance urlCache with_urlCache]. apply JsMapFacts.get_delete_same. Qed.


Lemma deleteFirst_unique_code (q : Url.t -> bool) code u docs :
  NoDup (map Url.shortCode docs) ->
  find (fun d => (Url.shortCode d =? code)%string && q d) docs = Some u ->
  deleteFirst (fun d => (Url.shortCode d =? code)%string && q d) docs
  = filter (fun d => negb (by_shortCode code d)) docs.
Proof.
  unfold by_shortCode. induction docs as [|d docs IH]; simpl; [discriminate|].
  intros ND Hfind. inversion ND as [|? ? Hnotin ND']; subst.
  destruct (String.eqb_spec (Url.shortCode d) code) as [E|Hne]; cbn [andb negb].
  - destruct (q d).
    + symmetry. apply forallb_filter_id. apply forallb_forall. intros x Hx.
      destruct (String.eqb_spec (Url.shortCode x) code) as [Ex|]; [|reflexivity].
      exfalso. apply Hnotin. rewrite E, <- Ex. now apply in_map.
    + exfalso. destruct (find_some _ _ Hfind) as [Hu Hqu].
      apply andb_true_iff in Hqu. destruct Hqu as [Ecode _].
      apply String.eqb_eq in Ecode. apply Hnotin. rewrite E, <- Ecode. now apply in_map.
  - f_equal. now apply IH.
Qed.

Lemma length_deleteFirst q docs u :
  find q docs = Some u -> S (List.length (deleteFirst q docs)) = List.length docs.
Proof.
  induction docs as [|d docs IH]; simpl; [discriminate|].
  destruct (q d); [reflexivity|]. intros Hf. simpl. f_equal. auto.
Qed.

(** X14.  A successful [deleteUrl] on a collection within its indexes
    removes the one document that has the short code and no other, and
    from then on the code does not resolve: every later [getByShortCode]
    throws the 404 "URL not found", whatever was cached before.  When no
    document has both the code and the owner, nothing is removed and the
    call throws the 404. *)
Theorem deleteUrl_removes_the_link (code : string) (uid : ObjectId) (w : World) :
  store_ok w ->
  (forall msg w',
     deleteUrl code uid w = (inr msg, w') ->
     db w' = filter (fun d => negb (by_shortCode code d)) (db w) /\
     S (List.length (db w')) = List.length (db w) /\
     (forall u, In u (db w') -> Url.shortCode u <> code) /\
     forall dt, getByShortCode code (advance dt w')
                = (inl (ThrowApp (AppError.notFound "URL not found")), advance dt w')) /\
  ((forall u, In u (db w) -> ~ (Url.shortCode u = code /\ Url.userId u = Some uid)) ->
   deleteUrl code uid w
   = (inl (ThrowApp (AppError.notFound "URL not found or access denied")), w)).
Proof.
  intros (Hcodes & _ & _). split.
  - intros msg w' Hrun. destruct (deleteUrl_inr _ _ _ Hrun) as (url & Efind & ->).
    cbn [db with_db with_urlCache].
    assert (Hdb : deleteFirst (by_shortCode_userId code uid) (db w)
                  = filter (fun d => negb (by_shortCode code d)) (db w)).
    { apply (deleteFirst_unique_code (fun d => opt_oid_eqb (Url.userId d) (Some uid))
               code (u := url)); assumption. }
    assert (Hgone : forall u, In u (filter (fun d => negb (by_shortCode code d)) (db w)) ->
                              Url.shortCode u <> code).
    { intros u Hu. apply filter_In in Hu. destruct Hu as [_ Hu]. unfold by_shortCode in Hu.
      destruct (String.eqb_spec (Url.shortCode u) code); [discriminate | assumption]. }
    split; [exact Hdb|]. split; [now apply (length_deleteFirst _ _ Efind)|].
    rewrite Hdb. split; [exact Hgone|].
    intros dt. rewrite getByShortCode_miss by apply miss_after_invalidate.
    cbn [advance db with_urlCache with_db].
    replace (find (by_shortCode_active code) _) with (@None Url.t); [reflexivity|].
    symmetry. apply find_none_iff. intros u Hu. unfold by_shortCode_active.
    destruct (String.eqb_spec (Url.shortCode u) code) as [E|]; [|reflexivity].
    exfalso. exact (Hgone u Hu E).
  - intros Hno. unfold deleteUrl, bind, findOneAndDelete.
    assert (Hnone : forall u, In u (db w) -> by_shortCode_userId code uid u = false).
    { intros u Hu. destruct (by_shortCode_userId code uid u) eqn:E; [|reflexivity].
      apply by_shortCode_userId_true in E. exfalso. exact (Hno u Hu E). }
    rewrite (proj2 (find_none_iff _ _) Hnone).
    replace (deleteFirst (by_shortCode_userId code uid) (db w)) with (db w);
      [now rewrite with_db_same|].
    clear Hcodes Hno. induction (db w) as [|d docs IH]; simpl; [reflexivity|].
    rewrite (Hnone d) by now left. f_equal. apply IH. intros u Hu. apply Hnone. now right.
Qed.

(** *** Resolving and redirecting *)

Lemma getByShortCode_hit_run code w e :
  JsMap.get code (UrlCache.cache (urlCache w)) = Some e ->
  clock w <= UrlCache.expiresAt e ->
  getByShortCode code w
  = (inr (UrlCache.data e),
     with_urlCache w
       (UrlCache.with_cache (urlCache w)
          (JsMap.set code
             (UrlCache.mkEntry (UrlCache.data e) (UrlCache.expiresAt e)
                               (UrlCache.hits e + 1) (clock w))
             (UrlCache.cache (urlCache w))))).
Proof.
  intros Hhit Hlive. unfold getByShortCode, bind, urlCache_get, UrlCache.get.
  rewrite Hhit. destruct (Z.gtb_spec (clock w) (UrlCache.expiresAt e)); [lia|].
  reflexivity.
Qed.

(** A hit keeps the entry's data and expiry, so a run of resolves of one
    code is answered from the cache until the entry's expiry. *)
Lemma resolves_hits code : forall calls w e,
  JsMap.get code (UrlCache.cache (urlCache w)) = Some e ->
  (forall dt docs, In (dt, docs) calls -> 0 <= dt) ->
  clock w + fold_right Z.add 0 (map fst calls) <= UrlCache.expiresAt e ->
  fst (resolves code calls w) = map (fun _ => inr (UrlCache.data e)) calls.
Proof.
  induction calls as [|[dt docs] calls IH]; intros w e Hhit Hpos Hsum; [reflexivity|].
  cbn [map fst fold_right] in Hsum.
  assert (Hdt : 0 <= dt) by (apply (Hpos dt docs); now left).
  assert (Hrest : 0 <= fold_right Z.add 0 (map fst calls)).
  { clear - Hpos. induction calls as [|[dt' docs'] calls IH]; cbn [map fst fold_right]; [lia|].
    assert (0 <= dt') by (apply (Hpos dt' docs'); right; now left).
    assert (0 <= fold_right Z.add 0 (map fst calls)); [|lia].
    apply IH. intros d x [E|Hin]; [apply (Hpos d x); now left|].
    apply (Hpos d x). right. now right. }
  cbn [resolves].
  rewrite (getByShortCode_hit_run code (advance dt (with_db w docs)) (e := e))
    by (cbn [advance with_db urlCache clock]; first [exact Hhit | lia]).
  cbn [advance with_db urlCache clock UrlCache.cache].
  match goal with
  | |- fst (let (rs, w2) := resolves code calls ?w1 in _) = _ =>
      specialize (IH w1 (UrlCache.mkEntry (UrlCache.data e) (UrlCache.expiresAt e)
                                          (UrlCache.hits e + 1) (clock w + dt)));
      destruct (resolves code calls w1) as [rs w2]
  end.
  cbn [fst map UrlCache.data] in *. f_equal. apply IH.
  - cbn [urlCache with_urlCache UrlCache.cache UrlCache.with_cache].
    apply JsMapFacts.get_set_same.
  - intros d x Hin. apply (Hpos d x). now right.
  - cbn [clock advance with_db with_urlCache UrlCache.expiresAt]. lia.
Qed.

(** X16.  Resolving a code that is not cached and whose active document
    has not expired returns [{originalUrl, shortCode, id}] of that
    document, leaves the collection alone and caches the answer.  Every
    resolve of that code in a run of resolves that follows within the
    [ttl], with no other use of the cache in between, is given the same
    answer, whatever the collection holds by then. *)
Theorem resolve_caches_for_ttl (code : string) (w : World) (url : Url.t) :
  JsMap.get code (UrlCache.cache (urlCache w)) = None ->
  find (by_shortCode_active code) (db w) = Some url ->
  (forall t, Url.expiresAt url = Some t -> clock w <= t) ->
  let urlData := mkUrlData (Url.originalUrl url) (Url.shortCode url) (Url._id url) in
  exists w1,
    getByShortCode code w = (inr urlData, w1) /\
    db w1 = db w /\
    JsMap.get code (UrlCache.cache (urlCache w1))
    = Some (UrlCache.mkEntry urlData (clock w + UrlCache.ttl (urlCache w)) 1 (clock w)) /\
    forall calls,
      (forall dt docs, In (dt, docs) calls -> 0 <= dt) ->
      fold_right Z.add 0 (map fst calls) <= UrlCache.ttl (urlCache w) ->
      fst (resolves code calls w1) = map (fun _ => inr urlData) calls.
Proof.
  intros Hmiss Hfind Hlive urlData.
  rewrite (getByShortCode_miss _ _ Hmiss), Hfind.
  assert (Hexp : match Url.expiresAt url with Some t => t <? clock w | None => false end
                 = false).
  { destruct (Url.expiresAt url) as [t|]; [|reflexivity].
    specialize (Hlive t eq_refl). destruct (Z.ltb_spec t (clock w)); [lia | reflexivity]. }
  rewrite Hexp. cbv zeta. fold urlData. eexists. split; [reflexivity|].
  cbn [db urlCache with_urlCache].
  pose proof (UrlCacheFacts.get_set (clock w) code urlData (urlCache w)) as Hentry.
  split; [reflexivity|]. split; [exact Hentry|].
  intros calls Hpos Hsum.
  apply (resolves_hits code calls
           (with_urlCache w (UrlCache.set (clock w) code urlData (urlCache w)))
           (e := UrlCache.mkEntry urlData (clock w + UrlCache.ttl (urlCache w)) 1 (clock w))).
  - exact Hentry.
  - exact Hpos.
  - cbn [clock with_urlCache UrlCache.expiresAt]. lia.
Qed.

(** X15.  [redirectUrl] answers exactly as [getByShortCode] does: its
    error goes to [next], its success becomes a 301 to the original URL,
    and nothing that happens while the click is recorded changes that.
    When the document of the code is stored and valid, the click is
    recorded on it and on no other field of it: the history, less its
    oldest entry when it held 100 or more, gains one entry with the
    instant of the call, the request's ip and user agent and no referer,
    whatever referer header the request carries, and the counter goes up
    by 1 when it is within the range in which a Number adds 1 exactly. *)
Theorem redirect_follows_resolve (req : Request) (w : World) :
  let code := params_shortCode req in
  (forall e w1, getByShortCode code w = (inl e, w1) ->
     redirectUrl req w = (Next e, w1)) /\
  (forall d w1, getByShortCode code w = (inr d, w1) ->
     fst (redirectUrl req w) = Redirect 301 (d_originalUrl d) /\
     urlCache (snd (redirectUrl req w)) = urlCache w1 /\
     (find (by_shortCode code) (db w) = None -> snd (redirectUrl req w) = w1) /\
     (forall url, find (by_shortCode code) (db w) = Some url ->
        Url.validate url = true ->
        exists url',
          db (snd (redirectUrl req w)) = updateOne url' (db w) /\
          Url._id url' = Url._id url /\
          (- 2 ^ 53 <= Url.clicks url < 2 ^ 53 -> Url.clicks url' = Url.clicks url + 1) /\
          Url.clickHistory url'
          = ((if (100 <=? List.length (Url.clickHistory url))%nat
              then tl (Url.clickHistory url) else Url.clickHistory url)
             ++ [Url.mkClick (clock w) (req_ip req) (header_userAgent req) None])%list /\
          Url.set_clicks (Url.clicks url) (Url.clickHistory url) url' = url)).
Proof.
  cbv zeta. unfold redirectUrl, redirectUrl_try, bind. split.
  - intros e w1 ->. reflexivity.
  - intros d w1 Hrun.
    destruct (getByShortCode_frame (params_shortCode req) w) as (Edb & _ & Eclock).
    rewrite Hrun in *. cbn [snd] in Edb, Eclock.
    unfold Date_now. cbn [UrlData_expiresAt]. unfold swallow, ret. cbn [fst snd].
    split; [reflexivity|]. rewrite recordClick_run, Edb, Eclock.
    split; [|split].
    + destruct (find (by_shortCode (params_shortCode req)) (db w)) as [url|];
        [|reflexivity].
      destruct (save_frame (Url.recordClick (clock w)
                 (Url.mkClickData (req_ip req) (header_userAgent req) None
                    (if truthy_str (header_referer req) then header_referer req
                     else header_referrer req)) url) false w1) as (_ & Ecache & _).
      now destruct (save _ false w1) as [[e|u] w2].
    + intros ->. reflexivity.
    + intros url Efind Hvalid. rewrite Efind. unfold save. cbn [orb].
      replace (Url.validate (Url.recordClick (clock w)
                 (Url.mkClickData (req_ip req) (header_userAgent req) None
                    (if truthy_str (header_referer req) then header_referer req
                     else header_referrer req)) url)) with (Url.validate url)
        by reflexivity.
      rewrite Hvalid. cbn [negb].
      replace (Url._id (Url.recordClick (clock w)
                 (Url.mkClickData (req_ip req) (header_userAgent req) None
                    (if truthy_str (header_referer req) then header_referer req
                     else header_referrer req)) url)) with (Url._id url) by reflexivity.
      rewrite Edb, (has_id_In url (db w) (proj1 (find_some _ _ Efind))).
      cbn [snd db with_db]. eexists. split; [reflexivity|].
      split; [reflexivity|]. split; [|split; [reflexivity | now destruct url]].
      intros Hsafe. exact (NumberFacts.Number_add_1_exact Hsafe).
Qed.

(** *** The sweeps of the cleanup service *)

Lemma filter_none (A : Type) (f : A -> bool) (l : list A) :
  (forall x, In x l -> f x = false) -> filter f l = [].
Proof.
  induction l as [|x l IH]; simpl; [reflexivity|]. intros Hall.
  rewrite (Hall x) by now left. apply IH. intros y Hy. apply Hall. now right.
Qed.

Lemma filter_all (A : Type) (f : A -> bool) (l : list A) :
  (forall x, In x l -> f x = true) -> filter f l = l.
Proof.
  intros Hall. apply forallb_filter_id. now apply forallb_forall.
Qed.

(** X17.  [cleanupExpiredUrls] deletes exactly the documents whose
    [expiresAt] is earlier than the instant of the sweep and returns how
    many they were; documents without an expiry stay, the cache is not
    touched, and a second sweep at that instant deletes nothing.  At the
    instant of the sweep no uncached code resolves to "URL has expired";
    any time later an uncached code does so only for a kept document whose
    [expiresAt] is at or after the instant of the sweep (the query is a
    strict [$lt]) and before the instant of the resolve. *)
Theorem sweep_deletes_the_expired (w : World) :
  let w' := snd (cleanupExpiredUrls w) in
  db w' = filter (fun d => negb (expired_before (clock w) d)) (db w) /\
  (exists n, fst (cleanupExpiredUrls w) = inr n /\
             (n + List.length (db w') = List.length (db w))%nat) /\
  (forall u t, In u (db w') -> Url.expiresAt u = Some t -> clock w <= t) /\
  (forall u, In u (db w) -> Url.expiresAt u = None -> In u (db w')) /\
  urlCache w' = urlCache w /\
  cleanupExpiredUrls w' = (inr 0%nat, w') /\
  (forall code, JsMap.get code (UrlCache.cache (urlCache w')) = None ->
     fst (getByShortCode code w') <> inl (ThrowApp (AppError.notFound "URL has expired"))) /\
  (forall code dt, JsMap.get code (UrlCache.cache (urlCache w')) = None ->
     fst (getByShortCode code (advance dt w'))
     = inl (ThrowApp (AppError.notFound "URL has expired")) ->
     exists u t, In u (db w') /\ Url.shortCode u = code /\ Url.expiresAt u = Some t /\
                 clock w <= t < clock w + dt).
Proof.
  cbv zeta.
  assert (Ew : cleanupExpiredUrls w
               = (inr (List.length (filter (expired_before (clock w)) (db w))),
                  with_db w (filter (fun d => negb (expired_before (clock w) d)) (db w))))
    by reflexivity.
  rewrite Ew. cbn [fst snd].
  set (w' := with_db w (filter (fun d => negb (expired_before (clock w) d)) (db w))).
  assert (Edb : db w' = filter (fun d => negb (expired_before (clock w) d)) (db w))
    by reflexivity.
  assert (Eclock : clock w' = clock w) by reflexivity.
  assert (Hkept : forall u t, In u (db w') -> Url.expiresAt u = Some t -> clock w <= t).
  { intros u t Hu Et. rewrite Edb in Hu. apply filter_In in Hu. destruct Hu as [_ Hu].
    unfold expired_before in Hu. rewrite Et in Hu.
    destruct (Z.ltb_spec t (clock w)); [discriminate | lia]. }
  split; [exact Edb|].
  split; [|split; [exact Hkept|split; [|split; [reflexivity|split; [|split]]]]].
  - eexists. split; [reflexivity|]. rewrite Edb. apply filter_length.
  - intros u Hu En. rewrite Edb. apply filter_In. split; [exact Hu|].
    unfold expired_before. now rewrite En.
  - assert (Hnone : forall x, In x (db w') -> expired_before (clock w) x = false).
    { intros x Hx. rewrite Edb in Hx. apply filter_In in Hx. destruct Hx as [_ Hx].
      now destruct (expired_before (clock w) x). }
    unfold cleanupExpiredUrls, bind, Date_now, deleteMany. rewrite Eclock.
    rewrite (filter_none _ _ Hnone).
    rewrite (filter_all (fun d => negb (expired_before (clock w) d)) (db w'))
      by (intros x Hx; now rewrite (Hnone x Hx)).
    now rewrite with_db_same.
  - intros code Hmiss. rewrite (getByShortCode_miss _ _ Hmiss).
    destruct (find (by_shortCode_active code) (db w')) as [url|] eqn:Efind;
      [|cbn [fst]; discriminate].
    destruct (find_some _ _ Efind) as [Hin _].
    destruct (Url.expiresAt url) as [t|] eqn:Et; [|cbn [fst]; discriminate].
    pose proof (Hkept url t Hin Et). rewrite Eclock.
    destruct (Z.ltb_spec t (clock w)); [lia | cbn [fst]; discriminate].
  - intros code dt Hmiss.
    rewrite (getByShortCode_miss code (advance dt w')) by exact Hmiss.
    cbn [advance db clock]. fold w'. rewrite Eclock.
    destruct (find (by_shortCode_active code) (db w')) as [url|] eqn:Efind;
      [|cbn [fst]; discriminate].
    destruct (find_some _ _ Efind) as [Hin Hq].
    destruct (Url.expiresAt url) as [t|] eqn:Et; [|cbn [fst]; discriminate].
    destruct (Z.ltb_spec t (clock w + dt)) as [Hlt|]; [|cbn [fst]; discriminate].
    intros _. exists url, t. split; [exact Hin|]. split; [|split; [exact Et|]].
    + unfold by_shortCode_active in Hq. apply andb_prop in Hq. destruct Hq as [Hq _].
      now apply String.eqb_eq.
    + split; [exact (Hkept url t Hin Et) | exact Hlt].
Qed.

(** X18.  [setExpirationForGuestUrls] gives every guest-only document that
    has no expiry an [expiresAt] 7 calendar days after the instant of the
    sweep (not of its creation) and returns how many those were; all other
    documents, and every other field, stay as they are.  Afterwards no
    guest-only document is without an expiry, and a second run changes
    nothing. *)
Theorem guest_links_get_an_expiry (w : World) :
  let w' := snd (setExpirationForGuestUrls w) in
  let t7 := Date_plusDays 7 (clock w) in
  fst (setExpirationForGuestUrls w)
  = inr (List.length (filter guest_without_expiry (db w))) /\
  db w' = map (fun d => if guest_without_expiry d then Url.set_expiresAt (Some t7) d else d)
              (db w) /\
  (forall u, In u (db w') -> Url.guestId u <> None -> Url.userId u = None ->
             Url.expiresAt u <> None) /\
  (forall u, In u (db w) -> guest_without_expiry u = false -> In u (db w')) /\
  urlCache w' = urlCache w /\
  setExpirationForGuestUrls w' = (inr 0%nat, w').
Proof.
  cbv zeta.
  set (f := fun d => if guest_without_expiry d
                     then Url.set_expiresAt (Some (Date_plusDays 7 (clock w))) d else d).
  assert (Ew : setExpirationForGuestUrls w
               = (inr (List.length (filter guest_without_expiry (db w))),
                  with_db w (map f (db w)))) by reflexivity.
  rewrite Ew. cbn [fst snd].
  set (w' := with_db w (map f (db w))).
  assert (Edb : db w' = map f (db w)) by reflexivity.
  assert (Hdone : forall x, In x (db w') -> guest_without_expiry x = false).
  { intros x Hx. rewrite Edb in Hx. apply in_map_iff in Hx.
    destruct Hx as (d & <- & _). unfold f.
    destruct (guest_without_expiry d) eqn:E; [|exact E].
    unfold guest_without_expiry. cbn [Url.set_expiresAt Url.expiresAt is_some negb].
    now rewrite andb_false_r. }
  split; [reflexivity|]. split; [exact Edb|]. split; [|split; [|split; [reflexivity|]]].
  - intros u Hu Hg Hn En. pose proof (Hdone u Hu) as Hf.
    unfold guest_without_expiry in Hf. rewrite Hn, En in Hf.
    destruct (Url.guestId u); [discriminate | congruence].
  - intros u Hu Hf. rewrite Edb. apply in_map_iff. exists u. split; [|exact Hu].
    unfold f. now rewrite Hf.
  - unfold setExpirationForGuestUrls, bind, Date_now, updateMany.
    rewrite (filter_none _ _ Hdone). cbn [List.length]. f_equal.
    replace (map _ (db w')) with (db w'); [apply with_db_same|].
    rewrite <- (map_id (db w')) at 1. apply map_ext_in.
    intros x Hx. now rewrite (Hdone x Hx).
Qed.

End ServiceMore.

(** ** [getUrlStats] *)

Section StatsFacts.
Context `{Platform}.
Variable isoDate : Z -> string.

Lemma countClick_counts (clicks : list Url.Click) : forall m seen,
  (forall date,
     JsMap.get date m =
     let n := Z.of_nat (List.length (filter (fun click : Url.Click => (isoDate (Url.timestamp click) =? date)%string) seen)) in
     if n =? 0 then None else Some n) ->
  forall date,
    JsMap.get date (fold_left (countClick isoDate) clicks m) =
    let n := Z.of_nat (List.length (filter (fun click : Url.Click => (isoDate (Url.timestamp click) =? date)%string) (seen ++ clicks))) in
    if n =? 0 then None else Some n.
Proof.
  induction clicks as [|click clicks IH]; intros m seen Hinv date.
  - rewrite app_nil_r. apply Hinv.
  - cbn [fold_left].
    replace (seen ++ click :: clicks)%list with ((seen ++ [click]) ++ clicks)%list
      by (rewrite <- app_assoc; reflexivity).
    apply IH. clear date. intros date. unfold countClick.
    rewrite filter_app, length_app. cbn [filter].
    set (d0 := isoDate (Url.timestamp click)).
    assert (Hseen : match JsMap.get d0 m with
                    | Some n => if n =? 0 then 0 else n
                    | None => 0
                    end = Z.of_nat (List.length (filter (fun click : Url.Click => (isoDate (Url.timestamp click) =? d0)%string) seen))).
    { rewrite (Hinv d0). cbv zeta.
      destruct (Z.eqb_spec (Z.of_nat (List.length (filter (fun click : Url.Click => (isoDate (Url.timestamp click) =? d0)%string) seen))) 0) as [E|E];
        [now rewrite E|].
      destruct (Z.eqb_spec (Z.of_nat (List.length (filter (fun click : Url.Click => (isoDate (Url.timestamp click) =? d0)%string) seen))) 0);
        [contradiction | reflexivity]. }
    rewrite Hseen.
    destruct (String.eqb_spec d0 date) as [<-|Hne].
    + rewrite JsMapFacts.get_set_same. cbn [List.length]. cbv zeta.
      destruct (Z.eqb_spec (Z.of_nat (List.length (filter (fun click : Url.Click => (isoDate (Url.timestamp click) =? d0)%string) seen) + 1)) 0);
        [lia|]. f_equal. lia.
    + rewrite UrlCacheMore.get_set_other by congruence.
      rewrite (Hinv date). cbn [List.length]. now rewrite Nat.add_0_r.
Qed.

Lemma slice_last_spec (A : Type) (n : nat) (l : list A) :
  List.length (slice_last n l) = Nat.min n (List.length l) /\
  exists older, l = (older ++ slice_last n l)%list.
Proof.
  unfold slice_last. split.
  - rewrite length_skipn. lia.
  - exists (firstn (List.length l - n) l). symmetry. apply firstn_skipn.
Qed.

(** X20.  [getUrlStats] reads the document found under [(shortCode,
    userId)] and changes nothing: [totalClicks] is its click counter;
    [clicksByDate] has, for each date, the number of history entries whose
    timestamp falls on that date and no key for a date without entries;
    [recentClicks] is the last 10 entries of the history, in order, or all
    of them when there are fewer.  Without such a document it throws the
    404. *)
Theorem getUrlStats_counts (code : string) (uid : ObjectId) (w : World) :
  (forall stats w',
     getUrlStats isoDate code uid w = (inr stats, w') ->
     exists url,
       find (by_shortCode_userId code uid) (db w) = Some url /\
       w' = w /\
       st_url stats = formatUrlResponse url /\
       st_totalClicks stats = Url.clicks url /\
       (forall date,
          JsMap.get date (st_clicksByDate stats) =
          let n := Z.of_nat (List.length (filter (fun click : Url.Click => (isoDate (Url.timestamp click) =? date)%string) (Url.clickHistory url))) in
          if n =? 0 then None else Some n) /\
       List.length (st_recentClicks stats) = Nat.min 10 (List.length (Url.clickHistory url)) /\
       exists older, Url.clickHistory url = (older ++ st_recentClicks stats)%list) /\
  (find (by_shortCode_userId code uid) (db w) = None ->
   getUrlStats isoDate code uid w
   = (inl (ThrowApp (AppError.notFound "URL not found or access denied")), w)).
Proof.
  unfold getUrlStats, bind, findOne. split.
  - intros stats w'.
    destruct (find (by_shortCode_userId code uid) (db w)) as [url|]; [|discriminate].
    unfold ret. intros E. injection E as <- <-. exists url.
    cbn [st_url st_totalClicks st_clicksByDate st_recentClicks].
    repeat (split; [reflexivity|]).
    split; [|apply slice_last_spec].
    intros date. apply (countClick_counts (Url.clickHistory url) [] []).
    intros d. reflexivity.
  - intros ->. reflexivity.
Qed.

End StatsFacts.

(** ** The controller's [createUrl] *)

Section ControllerFacts.
Context `{Platform}.

(** X19.  The create endpoint makes links with exactly one owner.  It
    answers 400 without touching anything when the body has no original URL
    or when the request has neither a user nor a guest id.  When it answers
    201 for an authenticated request, the stored link belongs to that user
    and to no guest, whatever guest id header came along; when it answers
    201 for a guest, the link belongs to the guest id of the header and
    expires 7 calendar days after the call, whatever [expiresAt] the body
    asked for. *)
Theorem controller_create_has_one_owner (req : Controller.CreateRequest) (w : World) :
  store_ok w ->
  (truthy_str (Controller.body_originalUrl req) = false ->
   Controller.createUrl req w
   = (Controller.NextError (ThrowApp (AppError.badRequest "Original URL is required")), w)) /\
  (truthy_str (Controller.body_originalUrl req) = true ->
   Controller.req_user req = None -> truthy_str (Controller.x_guest_id req) = false ->
   Controller.createUrl req w
   = (Controller.NextError
        (ThrowApp (AppError.badRequest "User authentication or guest ID required")), w)) /\
  (forall status j w',
     Controller.createUrl req w = (Controller.Created status j, w') ->
     status = 201 /\
     exists url,
       db w' = (db w ++ [url])%list /\
       j = Controller.formatUrlResponse (formatUrlResponse url) req /\
       Controller.body_originalUrl req = Some (p_originalUrl (Controller.createParams req)) /\
       (forall uid, Controller.req_user req = Some uid ->
          Url.userId url = Some uid /\ Url.guestId url = None) /\
       (Controller.req_user req = None ->
          Url.userId url = None /\
          Url.guestId url = Controller.x_guest_id req /\ Url.guestId url <> None /\
          Url.expiresAt url = Some (Date_plusDays 7 (clock w)))).
Proof.
  intros Hok. unfold Controller.createUrl, Controller.createUrl_try.
  split; [|split].
  - intros ->. reflexivity.
  - intros -> Hnouser Hnoguest. cbn [negb].
    unfold Controller.createParams. rewrite Hnouser.
    cbn [is_some negb p_userId p_guestId andb]. rewrite Hnoguest. reflexivity.
  - intros status j w'.
    destruct (truthy_str (Controller.body_originalUrl req)) eqn:Ebody; [|discriminate].
    cbn [negb].
    destruct (negb (is_some (p_userId (Controller.createParams req))) &&
              negb (truthy_str (p_guestId (Controller.createParams req)))) eqn:Eowner;
      [discriminate|].
    unfold bind.
    destruct (createUrl (Controller.createParams req) w) as [[e|resp] w1] eqn:Erun;
      [discriminate|].
    unfold ret. intros E. injection E as <- <- <-. split; [reflexivity|].
    destruct (createUrl_inr _ _ (fresh_id_has_id Hok) Erun)
      as (code & w0 & originalUrl & expiresAt & _ & _ & _ & Hexp & _ & Hresp & Hw').
    cbv zeta in Hresp, Hw'. eexists. split; [rewrite Hw'; reflexivity|].
    split; [now rewrite Hresp|].
    rewrite determineExpiration_run in Hexp.
    unfold Controller.createParams in *.
    cbn [p_userId p_guestId p_expiresAt p_originalUrl p_customSlug
         Url.userId Url.guestId Url.expiresAt] in *.
    split.
    { destruct (Controller.body_originalUrl req) as [s|]; [reflexivity | discriminate]. }
    split.
    + intros uid Huid. rewrite Huid. cbn [is_some negb]. split; reflexivity.
    + intros Hnouser. rewrite Hnouser in *. cbn [is_some negb andb] in *.
      destruct (truthy_str (Controller.x_guest_id req)) eqn:Eg; [|discriminate].
      unfold or_null. rewrite Eg. cbn [andb] in Hexp.
      split; [reflexivity|]. split; [reflexivity|]. split.
      * destruct (Controller.x_guest_id req); [discriminate | discriminate].
      * injection Hexp as <-. reflexivity.
Qed.

End ControllerFacts.

(** ** The further facts on concrete states *)

Module MoreScenarios.
Import Sample.

Local Ltac distinct := repeat constructor; simpl; intuition discriminate.

Local Ltac indexed :=
  unfold store_ok; simpl; split; [distinct | split; [distinct|]];
  let u := fresh "u" in
  let Hu := fresh "Hu" in
  intros u Hu; repeat (destruct Hu as [<-|Hu]; [simpl; lia|]); destruct Hu.

(** Byte values 0, 62, 124, 186 and 248 give 'a'; four give '9'. *)
Lemma alphabet_modulo_bias_witness :
  List.length (filter (fun b => (ShortCode.alphabet_index b =? 0)%N) ShortCode.all_bytes)
  = 5%nat /\
  List.length (filter (fun b => (ShortCode.alphabet_index b =? 61)%N) ShortCode.all_bytes)
  = 4%nat.
Proof.
  split.
  - refine (proj1 (proj2 (proj2 (@ShortCodeMore.alphabet_modulo_bias 0 _)))). lia.
  - refine (proj1 (proj2 (proj2 (@ShortCodeMore.alphabet_modulo_bias 61 _)))). lia.
Defined.

Lemma cleanup_is_invisible_witness :
  fst (UrlCache.get 100 "a" (UrlCache.cleanup 50 full_cache)) = Some 10%nat /\
  fst (UrlCache.get 200 "a" (UrlCache.cleanup 150 full_cache))
  = fst (UrlCache.get 200 "a" full_cache) /\
  UrlCache.cleanup 150 (UrlCache.cleanup 150 full_cache) = UrlCache.cleanup 150 full_cache.
Proof.
  assert (Hwf : UrlCache.wf full_cache) by (unfold UrlCache.wf; distinct).
  split; [|split].
  - rewrite (proj1 (proj2 (proj2 (@UrlCacheMore.cleanup_is_invisible nat full_cache 50 Hwf)))
               100 "a"); [reflexivity | lia].
  - apply (proj1 (proj2 (proj2 (@UrlCacheMore.cleanup_is_invisible nat full_cache 150 Hwf)))).
    lia.
  - exact (proj2 (proj2 (proj2 (@UrlCacheMore.cleanup_is_invisible nat full_cache 150 Hwf)))).
Defined.

Lemma size_never_exceeds_maxSize_witness :
  let ops := [UrlCache.OpSet 1 "a" 10%nat; UrlCache.OpSet 2 "b" 20%nat;
              UrlCache.OpGet nat 3 "a"; UrlCache.OpSet 4 "c" 30%nat;
              UrlCache.OpSet 5 "c" 31%nat; UrlCache.OpCleanup nat 102;
              UrlCache.OpSet 200 "d" 40%nat; UrlCache.OpInvalidate nat "a"] in
  (UrlCache.s_size (UrlCache.getStats (UrlCache.run ops (UrlCache.create nat 2 100))) <= 2)%nat.
Proof.
  cbv zeta.
  refine (proj1 (@UrlCacheMore.size_never_exceeds_maxSize nat 2 100 _ Nat.lt_0_2 _)).
  intros k Hk. simpl in Hk. intuition (subst; discriminate).
Defined.

(** "b" is the least recently used entry of the full cache; once read, it
    is "a" that the next [set] evicts. *)
Lemma recently_read_survives_witness :
  fst (UrlCache.get 50 "b" full_cache) = Some 20%nat /\
  JsMap.get "b" (UrlCache.cache (UrlCache.set 60 "c" 30%nat
                                   (snd (UrlCache.get 50 "b" full_cache))))
  = Some (UrlCache.mkEntry 20%nat 100 2 50).
Proof.
  refine (@UrlCacheMore.recently_read_survives nat full_cache 50 60 "b" "c"
            (UrlCache.mkEntry 20%nat 100 1 3) 30%nat _ _ eq_refl _ _ _ _).
  - unfold UrlCache.wf. distinct.
  - intros k Hk. simpl in Hk. intuition (subst; discriminate).
  - simpl. lia.
  - intros k' e' Hin Hne. simpl in Hin.
    destruct Hin as [E|[E|[]]]; injection E as <- <-; [simpl; lia | contradiction].
  - exists "a". split; [left; reflexivity | discriminate].
  - discriminate.
Defined.

(** Overwriting "a" in the full cache deletes "b". *)
Lemma overwrite_at_capacity_evicts_witness :
  JsMap.get "b" (UrlCache.cache (UrlCache.set 7 "a" 11%nat full_cache)) = None /\
  JsMap.size (UrlCache.cache (UrlCache.set 7 "a" 11%nat full_cache)) = 1%nat.
Proof.
  destruct (@UrlCacheMore.overwrite_at_capacity_evicts nat full_cache 7 "a" 11%nat)
    as (k & e & Hscan & Hother & _).
  - unfold UrlCache.wf. distinct.
  - intros k Hk. simpl in Hk. intuition (subst; discriminate).
  - simpl. lia.
  - reflexivity.
  - left. reflexivity.
  - vm_compute in Hscan. injection Hscan as <- <-.
    destruct Hother as [Hgone Hsize]; [discriminate|].
    split; [exact Hgone | exact (eq_add_S _ _ Hsize)].
Defined.

Lemma other_codes_untouched_witness :
  JsMap.get "b" (UrlCache.cache (UrlCache.invalidate "a" full_cache))
  = Some (UrlCache.mkEntry 20%nat 100 1 3) /\
  JsMap.get "b" (UrlCache.cache (snd (UrlCache.get 101 "a" full_cache)))
  = Some (UrlCache.mkEntry 20%nat 100 1 3).
Proof.
  assert (Hne : "b" <> "a") by discriminate.
  split.
  - rewrite (proj1 (proj2 (@UrlCacheMore.other_codes_untouched nat full_cache "a" "b" Hne))).
    reflexivity.
  - rewrite (proj1 (@UrlCacheMore.other_codes_untouched nat full_cache "a" "b" Hne) 101).
    reflexivity.
Defined.

Lemma service_keeps_indexes_witness :
  store_ok (snd (createUrl guest_params (world [promo None] 5))) /\
  store_ok (snd (deleteUrl "promo" alice (world [promo None] 5))) /\
  store_ok (snd (redirectUrl (request "promo") (world [promo None] 5))).
Proof.
  assert (Hok : store_ok (world [promo None] 5)) by indexed.
  destruct (@service_keeps_indexes platform _ Hok)
    as (Hcreate & _ & Hdelete & _ & _ & _ & Hredirect & _).
  split; [apply Hcreate | split; [apply Hdelete | apply Hredirect]].
Defined.

Lemma createUrl_appends_one_witness :
  exists resp w' url,
    createUrl guest_params (world [promo None] 1000) = (inr resp, w') /\
    db w' = [promo None; url] /\ Url._id url = Oid 2 /\ Url.shortCode url = "aaaaaa" /\
    Url.clicks url = 0 /\ Url.createdAt url = 1000.
Proof.
  assert (Hok : store_ok (world [promo None] 1000)) by indexed.
  destruct (createUrl guest_params (world [promo None] 1000)) as [[e|resp] w'] eqn:E.
  - vm_compute in E. discriminate E.
  - destruct (@createUrl_appends_one platform _ _ _ _ Hok E)
      as (url & Hdb & _ & _ & Hid & _ & _ & _ & Hclicks & _ & _ & Hcreated & _).
    exists resp, w', url. split; [reflexivity|]. split; [exact Hdb|].
    split; [exact Hid|]. split; [|split; [exact Hclicks | exact Hcreated]].
    vm_compute in E. injection E as <- <-.
    vm_compute in Hdb. injection Hdb as <-. reflexivity.
Defined.


Lemma deleteUrl_removes_the_link_witness :
  let w := world [promo None] 5 in
  (exists msg w', deleteUrl "promo" alice w = (inr msg, w') /\ db w' = [] /\
     getByShortCode "promo" (advance 1 w')
     = (inl (ThrowApp (AppError.notFound "URL not found")), advance 1 w')) /\
  deleteUrl "promo" bob w
  = (inl (ThrowApp (AppError.notFound "URL not found or access denied")), w).
Proof.
  cbv zeta.
  assert (Hok : store_ok (world [promo None] 5)) by indexed.
  split.
  - destruct (deleteUrl "promo" alice (world [promo None] 5)) as [[e|msg] w'] eqn:E.
    + vm_compute in E. discriminate E.
    + destruct (proj1 (@deleteUrl_removes_the_link "promo" alice _ Hok) _ _ E)
        as (Hdb & _ & _ & Hgone).
      exists msg, w'. split; [reflexivity|]. split; [exact Hdb | apply Hgone].
  - apply (proj2 (@deleteUrl_removes_the_link "promo" bob _ Hok)).
    intros u [<-|[]] [_ Hu]. discriminate Hu.
Defined.

(** Resolved at instant 0, then one second later after the document was
    deleted, then at the last instant of the hour after the link expired. *)
Lemma resolve_caches_for_ttl_witness :
  exists w1,
    getByShortCode "promo" (world [short_lived] 0)
    = (inr (mkUrlData "https://example.com" "promo" (Oid 1)), w1) /\
    fst (resolves "promo" [(1000, []); (3599000, [short_lived])] w1)
    = [inr (mkUrlData "https://example.com" "promo" (Oid 1));
       inr (mkUrlData "https://example.com" "promo" (Oid 1))].
Proof.
  destruct (@resolve_caches_for_ttl "promo" (world [short_lived] 0) short_lived
              eq_refl eq_refl) as (w1 & Hrun & _ & _ & Hhit).
  - intros t Ht. injection Ht as <-. simpl. lia.
  - exists w1. split; [exact Hrun|].
    apply (Hhit [(1000, []); (3599000, [short_lived])]).
    + intros dt docs [E|[E|[]]]; injection E as <- _; lia.
    + apply Z.leb_le. reflexivity.
Defined.

Lemma controller_create_has_one_owner_witness :
  let guest := Controller.mkCreateRequest None (Some "guest_1f") (Some "https://example.com/a")
                                          None (VNum 99) "https" "sho.rt" in
  let member := Controller.mkCreateRequest (Some alice) (Some "guest_1f")
                                           (Some "https://example.com/a")
                                           None (VNum 99) "https" "sho.rt" in
  (exists j w' url,
      Controller.createUrl guest (world [] 1000) = (Controller.Created 201 j, w') /\
      db w' = [url] /\ Url.userId url = None /\ Url.guestId url = Some "guest_1f" /\
      Url.expiresAt url = Some (1000 + 7 * 86400000)) /\
  (exists j w' url,
      Controller.createUrl member (world [] 1000) = (Controller.Created 201 j, w') /\
      db w' = [url] /\ Url.userId url = Some alice /\ Url.guestId url = None).
Proof.
  cbv zeta.
  assert (Hok : store_ok (world [] 1000)) by indexed.
  split.
  - destruct (Controller.createUrl
                (Controller.mkCreateRequest None (Some "guest_1f")
                   (Some "https://example.com/a") None (VNum 99) "https" "sho.rt")
                (world [] 1000)) as [[status j|e] w'] eqn:E.
    + destruct (proj2 (proj2 (@controller_create_has_one_owner platform _ _ Hok)) _ _ _ E)
        as (-> & url & Hdb & _ & _ & _ & Hguest).
      destruct (Hguest eq_refl) as (Hu & Hg & _ & Hexp).
      exists j, w', url. split; [reflexivity|]. split; [exact Hdb|].
      split; [exact Hu|]. split; [exact Hg | exact Hexp].
    + vm_compute in E. discriminate E.
  - destruct (Controller.createUrl
                (Controller.mkCreateRequest (Some alice) (Some "guest_1f")
                   (Some "https://example.com/a") None (VNum 99) "https" "sho.rt")
                (world [] 1000)) as [[status j|e] w'] eqn:E.
    + destruct (proj2 (proj2 (@controller_create_has_one_owner platform _ _ Hok)) _ _ _ E)
        as (-> & url & Hdb & _ & _ & Huser & _).
      destruct (Huser alice eq_refl) as (Hu & Hg).
      exists j, w', url. split; [reflexivity|]. split; [exact Hdb|].
      split; [exact Hu | exact Hg].
    + vm_compute in E. discriminate E.
Defined.

End MoreScenarios.
